(** * usql: quoting, credential lookup and the meta-command registry

    A shallow embedding of [env/env.go] (package [env]) and of the command
    table of package [metacmd], with the properties of the specification
    stated and proved over it.

    Conventions of the embedding.
    - A Go [string] is a sequence of bytes: Rocq's [string] (a list of 8-bit
      [ascii]).  [len(s)] is [String.length s], [s[i]] is [String.get i s],
      [s[a:b]] is [String.substring a (b - a) s].
    - A Go function that can abort with a run-time panic (index out of range,
      nil dereference) returns an [outcome]: [Returns r] or [Panics].
    - Several Go results are a Rocq tuple in the same order; an [error]
      result is an [option error], [nil] being [None].
    - Package-level state and the operating system are explicit arguments:
      the variable map [vars], and a [World] for files and the environment. *)

From Stdlib Require Import ZArith Ascii String Lia.
From stdpp Require Import gmap strings list fin_maps sorting.

Local Open Scope Z_scope.
Local Open Scope nat_scope.

(** ** Run-time outcomes and errors *)

Inductive outcome (A : Type) : Type :=
| Returns (r : A)
| Panics.
Arguments Returns {A} r.
Arguments Panics {A}.

(** The errors of package [text] that [env.go] raises, by kind and
    arguments (the message formats live in [text], outside this file);
    [ErrNormalizingURL] is the [errors.New] of [PassFileEntry], [ErrOther]
    any error of the operating system or of a collaborator. *)
Inductive error : Type :=
| ErrUnterminatedString
| BadPassFile (path : string)
| BadPassFileMode (path : string)
| BadPassFileLine (i : nat)
| BadPassFileFieldEmpty (i j : nat)
| ErrNormalizingURL
| ErrOther (msg : string).

(** ** Byte strings *)

Definition len (s : string) : nat := String.length s.

(** [s[lo:hi]] for [lo <= hi <= len s] (the only way [env.go] slices). *)
Definition slice (s : string) (lo hi : nat) : string :=
  String.substring lo (hi - lo) s.

Definition byte_is (o : option ascii) (c : ascii) : bool :=
  match o with
  | Some b => Ascii.eqb b c
  | None => false
  end.

Definition squote : ascii := "'"%char.
Definition dquote : ascii := "034"%char.
Definition colon : ascii := ":"%char.

Definition is_quote (c : ascii) : bool :=
  Ascii.eqb c squote || Ascii.eqb c dquote.

(** ** [unquote], [Getvar], [Unquote] *)

(** [func unquote(s string, c rune) (string, error)] *)
Definition unquote (s : string) (c : ascii) : string * option error :=
  if (len s <? 2) || negb (byte_is (String.get (len s - 1) s) c)
  then (EmptyString, Some ErrUnterminatedString)
  else (slice s 1 (len s - 1), None).

(** [func Getvar(s string) (bool, string, error)]; [vars] is the package's
    variable map.  [s[0]] is read before anything else. *)
Definition Getvar (vars : gmap string string) (s : string)
  : outcome (bool * string * option error) :=
  match String.get 0 s with
  | None => Panics
  | Some c =>
      let lookup (q n : string) :=
        match vars !! n with
        | Some v => Returns (true, q +:+ v +:+ q, None)
        | None => Returns (false, s, None)
        end in
      if is_quote c then
        match unquote s c with
        | (_, Some err) => Returns (false, EmptyString, Some err)
        | (n, None) => lookup (String c EmptyString) n
        end
      else lookup EmptyString s
  end.

(** The [*user.User] argument; only [HomeDir] is read in [env.go]. *)
Record User : Type := { HomeDir : string }.

(** [func Unquote(u *user.User, s string) (string, error)] *)
Definition Unquote (vars : gmap string string) (u : User) (s : string)
  : outcome (string * option error) :=
  if String.eqb s EmptyString then Returns (EmptyString, None)
  else if 1 <? len s then
    match String.get 0 s with
    | None => Panics
    | Some c =>
        if Ascii.eqb c colon then
          match Getvar vars (slice s 1 (len s)) with
          | Panics => Panics
          | Returns (_, _, Some err) => Returns (EmptyString, Some err)
          | Returns (true, v, None) => Returns (v, None)
          | Returns (false, _, None) => Returns (s, None)
          end
        else if is_quote c then Returns (unquote s c)
        else Returns (s, None)
    end
  else Returns (s, None).

(** ** Library functions used by the pass-file reader *)

Definition byte (n : nat) : ascii := Ascii.ascii_of_nat n.

Fixpoint bytes (l : list nat) : string :=
  match l with
  | [] => EmptyString
  | n :: r => String (byte n) (bytes r)
  end.

(** [commentRE.ReplaceAllString(s, "")] for [commentRE = `#.*`]: a line
    holds no newline, so the one match runs from the first [#] to the end
    of the line and the result is what stands before that [#]. *)
Fixpoint stripComment (s : string) : string :=
  match s with
  | EmptyString => EmptyString
  | String c r =>
      if Ascii.eqb c "#"%char then EmptyString else String c (stripComment r)
  end.

(** The UTF-8 encodings of the runes for which [unicode.IsSpace] holds:
    U+0009..U+000D, U+0020, U+0085, U+00A0, U+1680, U+2000..U+200A, U+2028,
    U+2029, U+202F, U+205F, U+3000. *)
Definition spaceEncodings : list string :=
  map bytes
    [ [9]; [10]; [11]; [12]; [13]; [32];
      [194; 133]; [194; 160];
      [225; 154; 128];
      [226; 128; 128]; [226; 128; 129]; [226; 128; 130]; [226; 128; 131];
      [226; 128; 132]; [226; 128; 133]; [226; 128; 134]; [226; 128; 135];
      [226; 128; 136]; [226; 128; 137]; [226; 128; 138];
      [226; 128; 168]; [226; 128; 169]; [226; 128; 175];
      [226; 129; 159];
      [227; 128; 128] ].

(** [dropPrefix p s] is what follows [p] in [s] when [s] starts with [p]. *)
Fixpoint dropPrefix (p s : string) : option string :=
  match p, s with
  | EmptyString, _ => Some s
  | String a p', String b s' =>
      if Ascii.eqb a b then dropPrefix p' s' else None
  | String _ _, EmptyString => None
  end.

Fixpoint dropAny (ps : list string) (s : string) : option string :=
  match ps with
  | [] => None
  | p :: ps' =>
      match dropPrefix p s with
      | Some r => Some r
      | None => dropAny ps' s
      end
  end.

(** Drop white-space runes from the front; [fuel] bounds the number of
    runes dropped ([len s] is always enough). *)
Fixpoint trimLeftSpaces (ps : list string) (fuel : nat) (s : string) : string :=
  match fuel with
  | O => s
  | S fuel' =>
      match dropAny ps s with
      | Some r => trimLeftSpaces ps fuel' r
      | None => s
      end
  end.

(** [strings.TrimSpace]: leading and trailing white-space runes removed.
    The trailing side is the leading side of the reversed string with the
    encodings reversed: [utf8.DecodeLastRuneInString] yields a white-space
    rune exactly when the string ends with one of the encodings. *)
Definition TrimSpace (s : string) : string :=
  let l := trimLeftSpaces spaceEncodings (len s) s in
  String.rev
    (trimLeftSpaces (map String.rev spaceEncodings) (len l) (String.rev l)).

(** [strings.Split(s, sep)] for a one-byte separator; [cur] is the field
    being read, reversed. *)
Fixpoint splitAcc (sep : ascii) (s : string) (cur : string) : list string :=
  match s with
  | EmptyString => [String.rev cur]
  | String c r =>
      if Ascii.eqb c sep then String.rev cur :: splitAcc sep r EmptyString
      else splitAcc sep r (String c cur)
  end.

Definition Split (s : string) (sep : ascii) : list string :=
  splitAcc sep s EmptyString.

(** ** The world outside the package *)

(** [os.FileInfo], as far as [PassFileEntry] reads it; [Mode] is the
    32-bit [fs.FileMode], permission bits lowest. *)
Record FileInfo : Type := { IsDir : bool; Mode : Z }.

(** The result of [os.Stat]: a [FileInfo], an error for which
    [os.IsNotExist] holds, or another error (the [FileInfo] is then nil). *)
Inductive statResult : Type :=
| StatOk (fi : FileInfo)
| StatNotExist
| StatError (err : error).

(** The result of [os.OpenFile] followed by a [bufio.Scanner] over the
    file: the open error, or the lines the scanner yields in order. *)
Inductive openResult : Type :=
| OpenError (err : error)
| OpenLines (lines : list string).

(** What [env.go] asks of the operating system, the Go library and package
    [text].  [filepath_Join], [strings_ToLower] and [text_CommandUpper] only
    shape the path of the pass file. *)
Record World : Type := {
  GOOS : string;
  os_Getenv : string -> string;
  os_Stat : string -> statResult;
  os_Open : string -> openResult;
  filepath_Join : string -> string -> string;
  strings_ToLower : string -> string;
  text_CommandUpper : string
}.

Module url.
(** [net/url.Userinfo] *)
Record Userinfo : Type :=
  { username : string; password : string; passwordSet : bool }.

(** [url.UserPassword(username, password)] *)
Definition UserPassword (u p : string) : Userinfo :=
  {| username := u; password := p; passwordSet := true |}.
End url.

Module dburl.
(** [dburl.URL], as far as [PassFileEntry] reads it.  [Normalize] is the
    method [func (u *URL) Normalize(sep, empty string, cut int) string]
    of the external library, kept opaque. *)
Record URL : Type := {
  User : option url.Userinfo;
  Normalize : string -> string -> nat -> string
}.
End dburl.

(** ** Paths *)

(** [func Getenv(keys ...string) string] *)
Fixpoint Getenv (w : World) (keys : list string) : string :=
  match keys with
  | [] => EmptyString
  | key :: rest =>
      let s := os_Getenv w key in
      if negb (String.eqb s EmptyString) then s else Getenv w rest
  end.

(** [func expand(u *user.User, path string) string] *)
Definition expand (w : World) (u : User) (path : string) : string :=
  if String.eqb path "~" then HomeDir u
  else
    match dropPrefix "~/" path with
    | Some rest => filepath_Join w (HomeDir u) rest
    | None => path
    end.

(** [func PassFile(u *user.User) string] *)
Definition PassFile (w : World) (u : User) : string :=
  let n := text_CommandUpper w +:+ "PASS" in
  let path := "~/." +:+ strings_ToLower w n in
  let s := Getenv w [n] in
  expand w u (if negb (String.eqb s EmptyString) then s else path).

(** ** Reading and matching pass-file entries *)

(** The inner loop of [readPassEntries]: the index of the first empty field
    at or after [j]. *)
Fixpoint firstEmpty (v : list string) (j : nat) : option nat :=
  match v with
  | [] => None
  | f :: rest =>
      if String.eqb f EmptyString then Some j else firstEmpty rest (S j)
  end.

(** The scanner loop of [readPassEntries]: [i] lines were read before
    [lines], and [entries] were kept. *)
Fixpoint scanEntries (lines : list string) (i : nat)
    (entries : list (list string)) : list (list string) * option error :=
  match lines with
  | [] => (entries, None)
  | text :: rest =>
      let i := S i in
      let line := TrimSpace (stripComment text) in
      if String.eqb line EmptyString then scanEntries rest i entries
      else
        let v := Split line colon in
        if negb (length v =? 6) then ([], Some (BadPassFileLine i))
        else
          match firstEmpty v 0 with
          | Some j => ([], Some (BadPassFileFieldEmpty i j))
          | None => scanEntries rest i (entries ++ [v])
          end
  end.

(** [func readPassEntries(path string) ([][]string, error)] *)
Definition readPassEntries (w : World) (path : string)
  : list (list string) * option error :=
  match os_Open w path with
  | OpenError err => ([], Some err)
  | OpenLines lines => scanEntries lines 0 []
  end.

(** The loop of [matchPassEntry] from index [i], with [k] components of
    [n] left: [Returns true] when the loop runs to its end, [Returns false]
    at the first component that differs, [Panics] when [entry[i]] is out of
    range. *)
Fixpoint matchFrom (n entry : list string) (i k : nat) : outcome bool :=
  match k with
  | O => Returns true
  | S k' =>
      match entry !! i, n !! i with
      | None, _ => Panics
      | Some _, None => Panics
      | Some e, Some c =>
          if negb (String.eqb e "*") && negb (String.eqb e c)
          then Returns false
          else matchFrom n entry (S i) k'
      end
  end.

(** [func matchPassEntry(n, entry []string) (string, string, bool)] *)
Definition matchPassEntry (n entry : list string)
  : outcome (string * string * bool) :=
  match matchFrom n entry 0 (length n) with
  | Panics => Panics
  | Returns false => Returns (EmptyString, EmptyString, false)
  | Returns true =>
      match entry !! 4, entry !! 5 with
      | Some u, Some p => Returns (u, p, true)
      | _, _ => Panics
      end
  end.

(** The [for _, entry := range entries] loop of [PassFileEntry]. *)
Fixpoint findEntry (n : list string) (username : string)
    (entries : list (list string)) : outcome (option url.Userinfo * option error) :=
  match entries with
  | [] => Returns (None, None)
  | entry :: rest =>
      match matchPassEntry n entry with
      | Panics => Panics
      | Returns (u, p, true) =>
          let u := if String.eqb u "*" then username else u in
          Returns (Some (url.UserPassword u p), None)
      | Returns (_, _, false) => findEntry n username rest
      end
  end.

(** [func PassFileEntry(u *user.User, v *dburl.URL)], returning a
    [*url.Userinfo] ([None] for nil) and an [error]. *)
Definition PassFileEntry (w : World) (u : User) (v : dburl.URL)
  : outcome (option url.Userinfo * option error) :=
  let username :=
    match dburl.User v with
    | Some ui => url.username ui
    | None => EmptyString
    end in
  let hasPassword :=
    match dburl.User v with
    | Some ui => url.passwordSet ui
    | None => false
    end in
  if hasPassword then Returns (None, None)
  else
    let path := PassFile w u in
    match os_Stat w path with
    | StatNotExist => Returns (None, None)
    | StatError _ => Panics
    | StatOk fi =>
        if IsDir fi then Returns (None, Some (BadPassFile path))
        else if negb (String.eqb (GOOS w) "windows")
                && negb (Z.land (Mode fi) 0x3f =? 0)%Z
        then Returns (None, Some (BadPassFileMode path))
        else
          match readPassEntries w path with
          | (_, Some err) => Returns (None, Some err)
          | (entries, None) =>
              let n := Split (dburl.Normalize v ":" "" 3) colon in
              if length n <? 3 then Returns (None, Some ErrNormalizingURL)
              else findEntry n username entries
          end
    end.

(** ** Package [metacmd]: the command table and the [\pset] handler *)

Module Metacmd.
(** Modelled from the spec: the constants of type [Metacmd] that index
    the command table, declared outside this file.  The table is the fixed
    list of the commands it declares: one constant per command, numbered
    after [None] in the order of the table, so that the table has no
    element besides the zero one at [None] and those it lists. *)
Inductive t : Type :=
| None | Question | Quit | Copyright | ConnectionInfo | Password | Print
| Reset | Transact | Prompt | SetVar | Unset | SetFormatVar.

Definition eqb (a b : t) : bool :=
  match a, b with
  | None, None | Question, Question | Quit, Quit | Copyright, Copyright
  | ConnectionInfo, ConnectionInfo | Password, Password | Print, Print
  | Reset, Reset | Transact, Transact | Prompt, Prompt | SetVar, SetVar
  | Unset, Unset | SetFormatVar, SetFormatVar => true
  | _, _ => false
  end.
End Metacmd.

(** Modelled from the spec: the help section tags the table names (type
    [Section], declared outside this file); [SectionNone] stands for the
    zero value. *)
Inductive HelpSection : Type :=
| SectionNone | SectionHelp | SectionGeneral | SectionConnection
| SectionQueryBuffer | SectionTransaction | SectionVariables
| SectionFormatting.

Definition HelpSection_eqb (a b : HelpSection) : bool :=
  match a, b with
  | SectionNone, SectionNone | SectionHelp, SectionHelp
  | SectionGeneral, SectionGeneral | SectionConnection, SectionConnection
  | SectionQueryBuffer, SectionQueryBuffer
  | SectionTransaction, SectionTransaction
  | SectionVariables, SectionVariables
  | SectionFormatting, SectionFormatting => true
  | _, _ => false
  end.

(** [type Cmd struct]; the handler [Process] of each command is a function
    of its own below, not a field.  A Go map literal cannot repeat a key, so
    the aliases of one command are distinct; they are listed in source
    order. *)
Record Cmd : Type := {
  cmd_Section : HelpSection;
  cmd_Name : string;
  cmd_Desc : string;
  cmd_Min : nat;
  cmd_Aliases : list (string * string)
}.

(** The zero [Cmd], which fills index [None] of the table. *)
Definition zeroCmd : Cmd :=
  {| cmd_Section := SectionNone; cmd_Name := ""; cmd_Desc := "";
     cmd_Min := 0; cmd_Aliases := [] |}.

(** [cmds = []Cmd{ Question: {...}, ... }]: each index with its element.
    [CommandName] is [text.CommandName]. *)
Definition cmds (CommandName : string) : list (Metacmd.t * Cmd) :=
  [ (Metacmd.None, zeroCmd);
    (Metacmd.Question,
      {| cmd_Section := SectionHelp; cmd_Name := "?";
         cmd_Desc := "show help on backslash commands,[commands]";
         cmd_Min := 0;
         cmd_Aliases :=
           [ ("?", "show help on " +:+ CommandName +:+ " command-line options,options");
             ("? ", "show help on special variables,variables") ] |});
    (Metacmd.Quit,
      {| cmd_Section := SectionGeneral; cmd_Name := "q";
         cmd_Desc := "quit " +:+ CommandName; cmd_Min := 0;
         cmd_Aliases := [ ("quit", "") ] |});
    (Metacmd.Copyright,
      {| cmd_Section := SectionGeneral; cmd_Name := "copyright";
         cmd_Desc := "show " +:+ CommandName +:+ " usage and distribution terms";
         cmd_Min := 0; cmd_Aliases := [] |});
    (Metacmd.ConnectionInfo,
      {| cmd_Section := SectionConnection; cmd_Name := "conninfo";
         cmd_Desc := "display information about the current database connection";
         cmd_Min := 0; cmd_Aliases := [] |});
    (Metacmd.Password,
      {| cmd_Section := SectionConnection; cmd_Name := "password";
         cmd_Desc := "change the password for a user,[USERNAME]";
         cmd_Min := 0; cmd_Aliases := [ ("passwd", "") ] |});
    (Metacmd.Print,
      {| cmd_Section := SectionQueryBuffer; cmd_Name := "p";
         cmd_Desc := "show the contents of the query buffer"; cmd_Min := 0;
         cmd_Aliases :=
           [ ("print", "");
             ("raw", "show the raw (non-interpolated) contents of the query buffer") ] |});
    (Metacmd.Reset,
      {| cmd_Section := SectionQueryBuffer; cmd_Name := "r";
         cmd_Desc := "reset (clear) the query buffer"; cmd_Min := 0;
         cmd_Aliases := [ ("reset", "") ] |});
    (Metacmd.Transact,
      {| cmd_Section := SectionTransaction; cmd_Name := "begin";
         cmd_Desc := "begin a transaction"; cmd_Min := 0;
         cmd_Aliases :=
           [ ("commit", "commit current transaction");
             ("rollback", "rollback (abort) current transaction") ] |});
    (Metacmd.Prompt,
      {| cmd_Section := SectionVariables; cmd_Name := "prompt";
         cmd_Desc := "prompt user to set variable,[-TYPE] [PROMPT] <VAR>";
         cmd_Min := 1; cmd_Aliases := [] |});
    (Metacmd.SetVar,
      {| cmd_Section := SectionVariables; cmd_Name := "set";
         cmd_Desc := "set internal variable, or list all if no parameters,[NAME [VALUE]]";
         cmd_Min := 0; cmd_Aliases := [] |});
    (Metacmd.Unset,
      {| cmd_Section := SectionVariables; cmd_Name := "unset";
         cmd_Desc := "unset (delete) internal variable,NAME";
         cmd_Min := 1; cmd_Aliases := [] |});
    (Metacmd.SetFormatVar,
      {| cmd_Section := SectionFormatting; cmd_Name := "pset";
         cmd_Desc := "set table output option,[NAME [VALUE]]"; cmd_Min := 0;
         cmd_Aliases :=
           [ ("a", "toggle between unaligned and aligned output mode");
             ("C", "set table title, or unset if none,[STRING]");
             ("f", "show or set field separator for unaligned query output,[STRING]");
             ("H", "toggle HTML output mode");
             ("T", "set HTML <table> tag attributes, or unset if none,[STRING]");
             ("t", "show only rows,[on|off]");
             ("x", "toggle expanded output,[on|off|auto]") ] |}) ].

(** The two indices [init] fills, and a ghost log of the keys assigned in
    [cmdMap], one per assignment, in order. *)
Record Registry : Type := {
  cmdMap : gmap string Metacmd.t;
  sectMap : HelpSection -> list Metacmd.t;
  assigned : list string
}.

(** [cmdMap[key] = mc] *)
Definition assign (mc : Metacmd.t) (r : Registry) (key : string) : Registry :=
  {| cmdMap := <[key := mc]> (cmdMap r);
     sectMap := sectMap r;
     assigned := assigned r ++ [key] |}.

(** The body of the loop of [init] for index [mc] and element [c].  Go
    ranges over the aliases in no fixed order; every order assigns the same
    keys to the same [mc]. *)
Definition register (r : Registry) (mc : Metacmd.t) (c : Cmd) : Registry :=
  if Metacmd.eqb mc Metacmd.None then r
  else
    let r := assign mc r (cmd_Name c) in
    let r := foldl (assign mc) r (map fst (cmd_Aliases c)) in
    {| cmdMap := cmdMap r;
       sectMap := fun s =>
         if HelpSection_eqb s (cmd_Section c) then sectMap r s ++ [mc]
         else sectMap r s;
       assigned := assigned r |}.

(** [func init()], from [// set up map] on. *)
Definition init (CommandName : string) : Registry :=
  foldl (fun r ic => register r (fst ic) (snd ic))
    {| cmdMap := ∅; sectMap := fun _ => []; assigned := [] |}
    (cmds CommandName).

(** *** The handler of [SetFormatVar] ([\pset] and its aliases) *)

(** What the handler writes to [p.Handler.IO().Stdout()], one value per
    call of package [fmt]. *)
Inductive output : Type :=
| Fprintln (args : list string)
| Fprint (s : string)
| FprintfInt (format : string) (i : Z)
| FprintfString (format : string) (v : string).

(** The parameter cursor [*Params], as far as the handler reads it. *)
Record Params : Type := { p_Name : string; p_Params : list string }.

(** The collaborators of the handler that are declared outside this file,
    over a store [PV] of format options: the cursor's [Get], package
    [env]'s [Pall], [Pget], [Ptoggle] and [Pset], package [text]'s two
    template maps, and [strconv]'s [Atoi] (its value alone) and
    [QuoteToASCII]. *)
Record Deps (PV : Type) : Type := {
  Get : Params -> string * Params;
  Pall : PV -> gmap string string;
  Pget : PV -> string -> string * option error;
  Ptoggle : PV -> string -> string -> PV * (string * option error);
  Pset : PV -> string -> string -> PV * (string * option error);
  FormatFieldNameSetMap : gmap string string;
  FormatFieldNameUnsetMap : gmap string string;
  Atoi : string -> Z;
  QuoteToASCII : string -> string
}.
Arguments Get {PV} _ _.
Arguments Pall {PV} _ _.
Arguments Pget {PV} _ _ _.
Arguments Ptoggle {PV} _ _ _ _.
Arguments Pset {PV} _ _ _ _.
Arguments FormatFieldNameSetMap {PV} _.
Arguments FormatFieldNameUnsetMap {PV} _.
Arguments Atoi {PV} _ _.
Arguments QuoteToASCII {PV} _ _.

(** [strings.Contains(s, substr)] for a nonempty [substr]. *)
Definition Contains (s substr : string) : bool :=
  match String.index 0 substr s with
  | Some _ => true
  | None => false
  end.

(** [strings.Repeat(" ", k)] *)
Fixpoint spaces (k : nat) : string :=
  match k with
  | O => EmptyString
  | S k' => String " "%char (spaces k')
  end.

(** [m[key]] on a Go map of strings: the empty string for a missing key. *)
Definition at_key (m : gmap string string) (key : string) : string :=
  default EmptyString (m !! key).

Definition string_in (s : string) (l : list string) : bool :=
  existsb (String.eqb s) l.

Section Handler.
Context {PV : Type} (d : Deps PV).

(** The branch [p.Name == "pset" && l == 0]: every option, sorted by
    name and padded to the longest name. *)
Definition listOptions (st : PV) : list output :=
  let vars := Pall d st in
  let n := merge_sort String.le (map fst (map_to_list vars)) in
  let w := foldr (fun k w => Nat.max (len k) w) 0 n in
  map (fun k =>
         let v := at_key vars k in
         let v :=
           if string_in k ["fieldsep"; "recordsep"; "null"]
           then QuoteToASCII d v
           else if string_in k ["tableattr"; "title"]
                then (if negb (String.eqb v EmptyString)
                      then QuoteToASCII d v else v)
                else v in
         Fprintln [k +:+ spaces (w - len k); v]) n.

(** [switch p.Name]: the field, the extra value, the cursor and the
    number of arguments left. *)
Definition target (p : Params) (l : nat) : string * string * Params * nat :=
  let name := p_Name p in
  if String.eqb name "pset" then
    let '(field, p') := Get d p in (field, EmptyString, p', l - 1)
  else if String.eqb name "a" then ("format"%string, EmptyString, p, l)
  else if String.eqb name "C" then ("title"%string, EmptyString, p, l)
  else if String.eqb name "f" then ("fieldsep"%string, EmptyString, p, l)
  else if String.eqb name "H" then ("format"%string, "html"%string, p, l)
  else if String.eqb name "T" then ("tableattr"%string, EmptyString, p, l)
  else if String.eqb name "t" then ("tuples_only"%string, EmptyString, p, l)
  else if String.eqb name "x" then ("expanded"%string, EmptyString, p, l)
  else (EmptyString, EmptyString, p, l).

(** [// special replacement name for expanded field, when 'auto'] *)
Definition templateKey (field v : string) : string :=
  if String.eqb field "expanded" && String.eqb v "auto"
  then "expanded_auto"%string else field.

(** [// format output], for the template key [field] and the value [v]. *)
Definition formatOutput (field v : string) : list output :=
  let mask := at_key (FormatFieldNameSetMap d) field in
  let unsetMask := at_key (FormatFieldNameUnsetMap d) field in
  (if Contains mask "%d" then [FprintfInt mask (Atoi d v)]
   else if negb (String.eqb unsetMask EmptyString) && String.eqb v EmptyString
        then [Fprint unsetMask]
   else if negb (Contains mask "%") then [Fprint mask]
   else [FprintfString mask v])
  ++ [Fprintln []].

(** [Process: func(p *Params) error] of [SetFormatVar]: the store after
    the call, what was written, and the error. *)
Definition SetFormatVar_Process (st : PV) (p : Params)
  : PV * list output * option error :=
  let l := length (p_Params p) in
  if String.eqb (p_Name p) "pset" && (l =? 0) then
    (st, listOptions st, None)
  else
    let '(field, extra, p, l) := target p l in
    match Pget d st field with
    | (_, Some err) => (st, [], Some err)
    | (v, None) =>
        let '(st, (v, err)) :=
          if l =? 0 then Ptoggle d st field extra
          else
            (* [l >= 1] *)
            Pset d st field (fst (Get d p)) in
        match err with
        | Some err => (st, [], Some err)
        | None => (st, formatOutput (templateKey field v) v, None)
        end
    end.
End Handler.

(** ** Sample surroundings, for running the definitions *)

Definition lowerByte (c : ascii) : ascii :=
  let n := Ascii.nat_of_ascii c in
  if (65 <=? n) && (n <=? 90) then Ascii.ascii_of_nat (n + 32) else c.

(** [strings.ToLower] on ASCII text. *)
Fixpoint lowerASCII (s : string) : string :=
  match s with
  | EmptyString => EmptyString
  | String c r => String (lowerByte c) (lowerASCII r)
  end.

(** A Unix-like world whose environment is empty: the pass file is
    [~/.usqlpass], [os.Stat] answers [st] for every path, and every file
    that is opened yields [lines]. *)
Definition sampleWorld (goos : string) (st : statResult) (lines : list string)
  : World :=
  {| GOOS := goos;
     os_Getenv := fun _ => EmptyString;
     os_Stat := fun _ => st;
     os_Open := fun _ => OpenLines lines;
     filepath_Join := fun a b => a +:+ "/" +:+ b;
     strings_ToLower := lowerASCII;
     text_CommandUpper := "USQL" |}.

Definition sampleUser : User := {| HomeDir := "/home/u" |}.

(** A URL with the given user part whose [Normalize] yields [normalized]. *)
Definition sampleURL (user : option url.Userinfo) (normalized : string)
  : dburl.URL :=
  {| dburl.User := user; dburl.Normalize := fun _ _ _ => normalized |}.

Definition regularFile (mode : Z) : statResult :=
  StatOk {| IsDir := false; Mode := mode |}.








(** ** Vocabulary of the statements *)

(** The line of the pass file as [readPassEntries] splits it: comment and
    surrounding white space removed. *)
Definition cleaned (text : string) : string := TrimSpace (stripComment text).

Definition fields (text : string) : list string := Split (cleaned text) colon.

Definition isBlank (text : string) : bool := String.eqb (cleaned text) EmptyString.

(** [strings.Join(l, sep)] for a one-byte separator, and whether a byte
    occurs in a string: the two sides of what [Split] guarantees. *)
Fixpoint joinFields (sep : ascii) (l : list string) : string :=
  match l with
  | [] => EmptyString
  | f :: r =>
      match r with
      | [] => f
      | _ :: _ => f +:+ String sep (joinFields sep r)
      end
  end.

Fixpoint hasByte (c : ascii) (s : string) : bool :=
  match s with
  | EmptyString => false
  | String b r => Ascii.eqb b c || hasByte c r
  end.

(** The keys [init] assigns for one command: its name, then its aliases. *)
Definition names (c : Cmd) : list string :=
  cmd_Name c :: map fst (cmd_Aliases c).

(** The strings of a list, one after the other. *)
Fixpoint concatStrings (l : list string) : string :=
  match l with
  | [] => EmptyString
  | a :: r => a +:+ concatStrings r
  end.

(** The entries kept from a list of lines: the fields of each line that is
    not blank, in order. *)
Definition keptEntries (lines : list string) : list (list string) :=
  map fields (List.filter (fun t => negb (isBlank t)) lines).

(** A line that [readPassEntries] accepts: blank, or six nonempty fields. *)
Definition goodLine (text : string) : Prop :=
  cleaned text = EmptyString
  \/ (length (fields text) = 6 /\ forall f, In f (fields text) -> f <> EmptyString).

(** The specification's matching rule: field [i] of the entry is the
    wildcard or equals component [i] of the identity. *)
Definition fieldMatches (n entry : list string) (i : nat) : Prop :=
  exists e c, entry !! i = Some e /\ n !! i = Some c /\ (e = "*"%string \/ e = c).

Definition entryMatches (n entry : list string) : Prop :=
  forall i, i < length n -> fieldMatches n entry i.

(** The user name the URL already carries ([username] in [PassFileEntry]). *)
Definition knownUsername (v : dburl.URL) : string :=
  match dburl.User v with
  | Some ui => url.username ui
  | None => EmptyString
  end.

(** The URL carries no password of its own. *)
Definition noPassword (v : dburl.URL) : Prop :=
  forall ui, dburl.User v = Some ui -> url.passwordSet ui = false.

(** The normalized identity [n] of [PassFileEntry]. *)
Definition identity (v : dburl.URL) : list string :=
  Split (dburl.Normalize v ":" "" 3) colon.

(** [PassFileEntry w u v] gets as far as reading the pass file, and reads
    [entries] from it: the URL has no password, the file exists, is no
    directory, passes the mode check, and parses. *)
Definition readsEntries (w : World) (u : User) (v : dburl.URL)
    (entries : list (list string)) : Prop :=
  noPassword v
  /\ exists fi,
       os_Stat w (PassFile w u) = StatOk fi
       /\ IsDir fi = false
       /\ (GOOS w = "windows"%string \/ Z.land (Mode fi) 0x3f = 0%Z)
       /\ readPassEntries w (PassFile w u) = (entries, None).

(** ** More of the code: history and RC files, the registration loop,
    and the handlers of [Transact] and [SetVar] *)



(** The world [w] with another answer to [os.OpenFile], and with another
    answer to [os.Stat]. *)
Definition withOpen (w : World) (f : string -> openResult) : World :=
  {| GOOS := GOOS w; os_Getenv := os_Getenv w; os_Stat := os_Stat w;
     os_Open := f; filepath_Join := filepath_Join w;
     strings_ToLower := strings_ToLower w;
     text_CommandUpper := text_CommandUpper w |}.

Definition withStat (w : World) (f : string -> statResult) : World :=
  {| GOOS := GOOS w; os_Getenv := os_Getenv w; os_Stat := f;
     os_Open := os_Open w; filepath_Join := filepath_Join w;
     strings_ToLower := strings_ToLower w;
     text_CommandUpper := text_CommandUpper w |}.

(** The empty indices [init] starts from, and its loop over any table:
    [init CommandName] is [registerAll (cmds CommandName)]. *)
Definition emptyRegistry : Registry :=
  {| cmdMap := ∅; sectMap := fun _ => []; assigned := [] |}.

Definition registerFrom (r : Registry) (table : list (Metacmd.t * Cmd)) : Registry :=
  foldl (fun r ic => register r (fst ic) (snd ic)) r table.

Definition registerAll (table : list (Metacmd.t * Cmd)) : Registry :=
  registerFrom emptyRegistry table.

(** The elements of a table that the loop registers under section [s]. *)
Definition inSection (s : HelpSection) (ic : Metacmd.t * Cmd) : bool :=
  negb (Metacmd.eqb (fst ic) Metacmd.None) && HelpSection_eqb s (cmd_Section (snd ic)).

(** The method of the handler that [Transact] calls. *)
Inductive txCall : Type := CallBegin | CallCommit | CallRollback.

(** [Process] of [Transact]: [f] stays nil for a name that is none of the
    three, and calling it panics.  [run c] is the error that the method [c]
    of [p.Handler] returns. *)
Definition Transact_Process (run : txCall -> option error) (p : Params)
  : outcome (txCall * option error) :=
  if String.eqb (p_Name p) "begin" then Returns (CallBegin, run CallBegin)
  else if String.eqb (p_Name p) "commit" then Returns (CallCommit, run CallCommit)
  else if String.eqb (p_Name p) "rollback" then Returns (CallRollback, run CallRollback)
  else Panics.

(** The collaborators of the handler of [SetVar] that are declared outside
    this file, over a store [ST] of variables: [env.All], [env.Set], and
    the cursor's [Get] and [GetAll]. *)
Record VarDeps (ST : Type) : Type := {
  sv_All : ST -> gmap string string;
  sv_Set : ST -> string -> string -> ST * option error;
  sv_Get : Params -> string * Params;
  sv_GetAll : Params -> list string * Params
}.
Arguments sv_All {ST} _ _.
Arguments sv_Set {ST} _ _ _ _.
Arguments sv_Get {ST} _ _.
Arguments sv_GetAll {ST} _ _.

(** The line [fmt.Fprintln(out, k, "=", "'"+vars[k]+"'")]. *)
Definition varLine (vars : gmap string string) (k : string) : output :=
  Fprintln [k; "="%string; "'" +:+ at_key vars k +:+ "'"].

(** The branch [len(p.Params) == 0] of [SetVar]: every variable, sorted
    by name. *)
Definition listVars (vars : gmap string string) : list output :=
  let n := merge_sort String.le (map fst (map_to_list vars)) in
  map (varLine vars) n.

(** [Process] of [SetVar]; [strings.Join(l, "")] is [concatStrings l]. *)
Definition SetVar_Process {ST : Type} (d : VarDeps ST) (st : ST) (p : Params)
  : ST * list output * option error :=
  if length (p_Params p) =? 0 then (st, listVars (sv_All d st), None)
  else
    let '(name, p) := sv_Get d p in
    let '(rest, _) := sv_GetAll d p in
    let '(st, err) := sv_Set d st name (concatStrings rest) in
    (st, [], err).

(** One line of the listing of [\pset], for the width [w] of the name
    column. *)
Definition optionLine {PV : Type} (d : Deps PV) (vars : gmap string string)
    (w : nat) (k : string) : output :=
  let v := at_key vars k in
  let v :=
    if string_in k ["fieldsep"; "recordsep"; "null"]
    then QuoteToASCII d v
    else if string_in k ["tableattr"; "title"]
         then (if negb (String.eqb v EmptyString)
               then QuoteToASCII d v else v)
         else v in
  Fprintln [k +:+ spaces (w - len k); v].

(** The width of the name column: the longest name. *)
Definition nameWidth (n : list string) : nat :=
  foldr (fun k w => Nat.max (len k) w) 0 n.

(** The fields the aliases of [\pset] are hard-wired to. *)
Definition aliasFields : list string :=
  ["format"; "title"; "fieldsep"; "tableattr"; "tuples_only"; "expanded"]%string.

(** The aliases of [\pset], each with the field and the extra value of
    its case in [switch p.Name]. *)
Definition aliasWiring : list (string * (string * string)) :=
  [ ("a", ("format", ""));
    ("C", ("title", ""));
    ("f", ("fieldsep", ""));
    ("H", ("format", "html"));
    ("T", ("tableattr", ""));
    ("t", ("tuples_only", ""));
    ("x", ("expanded", "")) ]%string.

(** [t] starts with a quote that it does not close: it is that quote
    alone, or its last byte is another one. *)
Definition openQuote (t : string) : bool :=
  match String.get 0 t with
  | Some c =>
      is_quote c
      && ((len t <? 2) || negb (byte_is (String.get (len t - 1) t) c))
  | None => false
  end.

(** The tokens of two bytes or more that [Unquote] turns down: an open
    quote, or a colon before an open quote. *)
Definition malformed (s : string) : bool :=
  (1 <? len s)
  && match s with
     | EmptyString => false
     | String c t => if Ascii.eqb c colon then openQuote t else openQuote s
     end.

(** ** Strings: facts used below *)

Lemma len_app (a b : string) : len (a +:+ b) = len a + len b.
Proof. unfold len. induction a as [|c a IH]; simpl; auto. Qed.

Lemma get_app_end (a : string) (c : ascii) (b : string) :
  String.get (len a) (a +:+ String c b) = Some c.
Proof. unfold len. induction a as [|x a IH]; simpl; auto. Qed.

Lemma substring_app_front (a b : string) :
  String.substring 0 (len a) (a +:+ b) = a.
Proof.
  unfold len. induction a as [|x a IH]; simpl.
  - destruct b; reflexivity.
  - now rewrite IH.
Qed.

Lemma append_empty_r (s : string) : s +:+ EmptyString = s.
Proof.
  induction s as [|x s IH]; [reflexivity|].
  change (String x s +:+ EmptyString) with (String x (s +:+ EmptyString)).
  now rewrite IH.
Qed.

Lemma append_assoc (a b c : string) : (a +:+ b) +:+ c = a +:+ (b +:+ c).
Proof.
  induction a as [|x a IH]; [reflexivity|].
  change (String x ((a +:+ b) +:+ c) = String x (a +:+ (b +:+ c))).
  now rewrite IH.
Qed.

Lemma substring_all (s : string) : String.substring 0 (len s) s = s.
Proof. unfold len. induction s as [|x s IH]; simpl; [reflexivity | now rewrite IH]. Qed.

(** A nonempty string ends with some byte. *)
Lemma string_snoc (s : string) :
  s <> EmptyString -> exists a c, s = a +:+ String c EmptyString.
Proof.
  induction s as [|x s IH]; intros H; [congruence|].
  destruct s as [|y s'].
  - exists EmptyString, x. reflexivity.
  - destruct IH as (a & c & E); [discriminate|].
    exists (String x a), c. rewrite E. reflexivity.
Qed.

(** The shape of a string of two bytes or more. *)
Lemma two_bytes_shape (s : string) :
  2 <= len s ->
  exists c mid e, s = String c (mid +:+ String e EmptyString).
Proof.
  destruct s as [|c t]; simpl; [lia|]. intros H.
  destruct (string_snoc t) as (mid & e & E).
  - destruct t; simpl in H; [lia | discriminate].
  - exists c, mid, e. now rewrite E.
Qed.

Lemma last_of_shape c mid e :
  let s := String c (mid +:+ String e EmptyString) in
  String.get (len s - 1) s = Some e.
Proof.
  simpl. rewrite len_app. simpl.
  replace (len mid + 1 - 0) with (S (len mid)) by lia.
  apply get_app_end.
Qed.

Lemma slice_of_shape c mid e :
  let s := String c (mid +:+ String e EmptyString) in
  slice s 1 (len s - 1) = mid.
Proof.
  unfold slice. simpl. rewrite len_app. simpl.
  replace (len mid + 1 - 0 - 1) with (len mid) by lia.
  apply substring_app_front.
Qed.

Lemma slice_tail c (r : string) : slice (String c r) 1 (len (String c r)) = r.
Proof.
  unfold slice. simpl. rewrite Nat.sub_0_r. apply substring_all.
Qed.

Lemma is_quote_not_colon c : is_quote c = true -> Ascii.eqb c colon = false.
Proof.
  unfold is_quote. intros H. apply orb_true_iff in H.
  destruct H as [H|H]; apply Ascii.eqb_eq in H; subst; reflexivity.
Qed.

(** [unquote] on a string of the shape [c ... e]. *)
Lemma unquote_shape c mid e q :
  unquote (String c (mid +:+ String e EmptyString)) q =
  if Ascii.eqb e q then (mid, None)
  else (EmptyString, Some ErrUnterminatedString).
Proof.
  unfold unquote.
  rewrite (last_of_shape c mid e), (slice_of_shape c mid e).
  assert (L : (len (String c (mid +:+ String e EmptyString)) <? 2) = false).
  { apply Nat.ltb_ge. simpl. rewrite len_app. simpl. lia. }
  rewrite L. simpl. destruct (Ascii.eqb e q); reflexivity.
Qed.

(** ** The quoting and variable resolver *)

Lemma Unquote_long vars u s c :
  1 < len s -> String.get 0 s = Some c ->
  Unquote vars u s =
    if Ascii.eqb c colon then
      match Getvar vars (slice s 1 (len s)) with
      | Panics => Panics
      | Returns (_, _, Some err) => Returns (EmptyString, Some err)
      | Returns (true, v, None) => Returns (v, None)
      | Returns (false, _, None) => Returns (s, None)
      end
    else if is_quote c then Returns (unquote s c)
    else Returns (s, None).
Proof.
  intros L G. unfold Unquote.
  destruct (String.eqb_spec s EmptyString) as [->|_]; [simpl in L; lia|].
  apply Nat.ltb_lt in L. rewrite L, G. reflexivity.
Qed.

Lemma byte_is_last c mid e q :
  let s := String c (mid +:+ String e EmptyString) in
  byte_is (String.get (len s - 1) s) q = Ascii.eqb e q.
Proof. intros s. unfold s. now rewrite last_of_shape. Qed.

(** C5. A token of two bytes or more that starts with a single or double
    quote: when its last byte is that same quote, [Unquote] returns what
    stands between the two quotes, with no error; otherwise it fails with
    [ErrUnterminatedString].  So ['abc'] gives [abc] and ['abc] fails. *)
Theorem Unquote_quoted_token (vars : gmap string string) (u : User)
    (s : string) (c : ascii) :
  1 < len s -> String.get 0 s = Some c -> is_quote c = true ->
  (byte_is (String.get (len s - 1) s) c = true ->
     s = String c (slice s 1 (len s - 1) +:+ String c EmptyString)
     /\ Unquote vars u s = Returns (slice s 1 (len s - 1), None))
  /\ (byte_is (String.get (len s - 1) s) c = false ->
     Unquote vars u s = Returns (EmptyString, Some ErrUnterminatedString))
  /\ Unquote vars u "'abc'" = Returns ("abc"%string, None)
  /\ Unquote vars u "'abc" = Returns (EmptyString, Some ErrUnterminatedString).
Proof.
  intros L G Q.
  rewrite (Unquote_long vars u s c L G), (is_quote_not_colon c Q), Q.
  destruct (two_bytes_shape s) as (c0 & mid & e & E); [lia|].
  subst s. simpl in G. injection G as ->.
  rewrite byte_is_last, unquote_shape, slice_of_shape.
  repeat split.
  - apply Ascii.eqb_eq in H. now subst e.
  - now rewrite H.
  - intros H. now rewrite H.
Qed.

Lemma Unquote_quoted_token_witness :
  Unquote ∅ sampleUser "'abc'" = Returns ("abc"%string, None)
  /\ Unquote ∅ sampleUser "'abc" =
       Returns (EmptyString, Some ErrUnterminatedString).
Proof.
  split.
  - apply (proj1 (Unquote_quoted_token ∅ sampleUser "'abc'" squote
                    ltac:(simpl; lia) eq_refl eq_refl) eq_refl).
  - apply (proj1 (proj2 (Unquote_quoted_token ∅ sampleUser "'abc" squote
                    ltac:(simpl; lia) eq_refl eq_refl)) eq_refl).
Defined.

(** C9. A token [:r] whose remainder [r] starts with a quote and does not
    end with that quote fails with [ErrUnterminatedString]; the token is not
    handed back unchanged. *)
Theorem Unquote_variable_unterminated (vars : gmap string string) (u : User)
    (r : string) (c : ascii) :
  String.get 0 r = Some c -> is_quote c = true ->
  byte_is (String.get (len r - 1) r) c = false ->
  Unquote vars u (String colon r) =
    Returns (EmptyString, Some ErrUnterminatedString).
Proof.
  intros G Q B.
  assert (L : 1 < len (String colon r)).
  { destruct r; simpl in *; [discriminate | lia]. }
  rewrite (Unquote_long vars u _ colon L eq_refl), slice_tail.
  change (Ascii.eqb colon colon) with true. cbv iota.
  unfold Getvar. rewrite G, Q. unfold unquote. rewrite B.
  now rewrite orb_true_r.
Qed.

Lemma Unquote_variable_unterminated_witness :
  Unquote ∅ sampleUser ":'abc" =
    Returns (EmptyString, Some ErrUnterminatedString).
Proof.
  exact (Unquote_variable_unterminated ∅ sampleUser "'abc" squote
           eq_refl eq_refl eq_refl).
Defined.

(** C6. A token [:r] with a nonempty remainder [r] is resolved through
    [Getvar r].  When [r] starts with no quote, the name looked up is [r]
    and a known variable yields its value.  When [r] is [c n c] for a quote
    [c], the name looked up is [n] and a known variable yields its value
    between two [c].  In both cases an unknown name yields the token itself,
    with no error. *)
Theorem Unquote_variable_reference (vars : gmap string string) (u : User)
    (r : string) :
  r <> EmptyString ->
  let s := String colon r in
  Unquote vars u s =
    match Getvar vars r with
    | Panics => Panics
    | Returns (_, _, Some err) => Returns (EmptyString, Some err)
    | Returns (true, v, None) => Returns (v, None)
    | Returns (false, _, None) => Returns (s, None)
    end
  /\ (forall c, String.get 0 r = Some c -> is_quote c = false ->
        Getvar vars r =
          match vars !! r with
          | Some v => Returns (true, v, None)
          | None => Returns (false, r, None)
          end
        /\ Unquote vars u s =
             Returns (match vars !! r with Some v => v | None => s end, None))
  /\ (forall c n, is_quote c = true ->
        r = String c (n +:+ String c EmptyString) ->
        unquote r c = (n, None)
        /\ Getvar vars r =
             match vars !! n with
             | Some v => Returns (true, String c (v +:+ String c EmptyString), None)
             | None => Returns (false, r, None)
             end
        /\ Unquote vars u s =
             Returns (match vars !! n with
                      | Some v => String c (v +:+ String c EmptyString)
                      | None => s
                      end, None)).
Proof.
  intros Hne s.
  assert (L : 1 < len s).
  { unfold s. destruct r; simpl; [congruence | lia]. }
  assert (U : Unquote vars u s =
    match Getvar vars r with
    | Panics => Panics
    | Returns (_, _, Some err) => Returns (EmptyString, Some err)
    | Returns (true, v, None) => Returns (v, None)
    | Returns (false, _, None) => Returns (s, None)
    end).
  { rewrite (Unquote_long vars u s colon L eq_refl). unfold s.
    rewrite slice_tail. reflexivity. }
  split; [exact U|]. split.
  - intros c G Q.
    assert (E : Getvar vars r =
      match vars !! r with
      | Some v => Returns (true, v, None)
      | None => Returns (false, r, None)
      end).
    { unfold Getvar. rewrite G, Q. destruct (vars !! r) as [v|]; [|reflexivity].
      change (EmptyString +:+ v +:+ EmptyString) with (v +:+ EmptyString).
      now rewrite append_empty_r. }
    split; [exact E|]. rewrite U, E. destruct (vars !! r); reflexivity.
  - intros c n Q ->.
    assert (Uq : unquote (String c (n +:+ String c EmptyString)) c = (n, None)).
    { rewrite unquote_shape. now rewrite Ascii.eqb_refl. }
    assert (E : Getvar vars (String c (n +:+ String c EmptyString)) =
      match vars !! n with
      | Some v => Returns (true, String c (v +:+ String c EmptyString), None)
      | None => Returns (false, String c (n +:+ String c EmptyString), None)
      end).
    { unfold Getvar. change (String.get 0 (String c _)) with (Some c).
      cbv iota beta. rewrite Q, Uq. destruct (vars !! n); reflexivity. }
    split; [exact Uq|]. split; [exact E|].
    rewrite U, E. destruct (vars !! n); reflexivity.
Qed.

Lemma Unquote_variable_reference_witness :
  Unquote {[ "x"%string := "1"%string ]} sampleUser ":x" = Returns ("1"%string, None)
  /\ Unquote {[ "x"%string := "1"%string ]} sampleUser ":y" = Returns (":y"%string, None)
  /\ Unquote {[ "x"%string := "1"%string ]} sampleUser ":'x'" = Returns ("'1'"%string, None)
  /\ Unquote {[ "x"%string := "1"%string ]} sampleUser ":'y'" = Returns (":'y'"%string, None).
Proof.
  pose (vars := ({[ "x"%string := "1"%string ]} : gmap string string)).
  assert (Nx : "x"%string <> EmptyString) by discriminate.
  assert (Ny : "y"%string <> EmptyString) by discriminate.
  assert (Nqx : "'x'"%string <> EmptyString) by discriminate.
  assert (Nqy : "'y'"%string <> EmptyString) by discriminate.
  split; [|split; [|split]].
  - exact (proj2 (proj1 (proj2 (Unquote_variable_reference vars sampleUser "x" Nx))
             "x"%char eq_refl eq_refl)).
  - exact (proj2 (proj1 (proj2 (Unquote_variable_reference vars sampleUser "y" Ny))
             "y"%char eq_refl eq_refl)).
  - exact (proj2 (proj2 (proj2 (proj2 (Unquote_variable_reference vars sampleUser "'x'" Nqx))
             squote "x"%string eq_refl eq_refl))).
  - exact (proj2 (proj2 (proj2 (proj2 (Unquote_variable_reference vars sampleUser "'y'" Nqy))
             squote "y"%string eq_refl eq_refl))).
Defined.

(** C10. [Getvar] panics on the empty string and returns on every other
    string.  [Unquote] hands a token of at most one byte back as it is,
    without a call of [Getvar]; the string it hands to [Getvar] is [s[1:]]
    for a token of two bytes or more, hence nonempty; and [Unquote] itself
    returns on every token. *)
Theorem Getvar_total_on_nonempty (vars : gmap string string) :
  Getvar vars EmptyString = Panics
  /\ (forall s, s <> EmptyString -> exists r, Getvar vars s = Returns r)
  /\ (forall u s, len s <= 1 -> Unquote vars u s = Returns (s, None))
  /\ (forall s, 1 < len s -> slice s 1 (len s) <> EmptyString)
  /\ (forall u s, exists r, Unquote vars u s = Returns r).
Proof.
  assert (S1 : forall u s, len s <= 1 -> Unquote vars u s = Returns (s, None)).
  { intros u s L. unfold Unquote.
    destruct (String.eqb_spec s EmptyString) as [->|_]; [reflexivity|].
    apply Nat.ltb_ge in L. now rewrite L. }
  assert (G : forall s, s <> EmptyString -> exists r, Getvar vars s = Returns r).
  { intros s Hs. destruct s as [|c t]; [congruence|].
    unfold Getvar. change (String.get 0 (String c t)) with (Some c).
    cbv iota beta. destruct (is_quote c).
    - destruct (unquote (String c t) c) as [n [err|]]; [eauto|].
      destruct (vars !! n); eauto.
    - destruct (vars !! String c t); eauto. }
  assert (T : forall s, 1 < len s -> slice s 1 (len s) <> EmptyString).
  { intros s L. destruct s as [|c t]; [simpl in L; lia|].
    rewrite slice_tail. destruct t; [simpl in L; lia | discriminate]. }
  split; [reflexivity|]. split; [exact G|]. split; [exact S1|]. split; [exact T|].
  intros u s. unfold Unquote.
  destruct (String.eqb s EmptyString); [eauto|].
  destruct (1 <? len s) eqn:L; [|eauto].
  apply Nat.ltb_lt in L.
  destruct s as [|c t]; [simpl in L; lia|].
  change (String.get 0 (String c t)) with (Some c). cbv iota beta.
  destruct (Ascii.eqb c colon).
  - destruct (G _ (T _ L)) as ([[b v] [err|]] & E); rewrite E.
    + destruct b; eauto.
    + destruct b; eauto.
  - destruct (is_quote c); eauto.
Qed.

Lemma Getvar_total_on_nonempty_witness :
  exists r, Getvar ∅ "x" = Returns r.
Proof.
  apply (proj1 (proj2 (Getvar_total_on_nonempty ∅)) "x"%string).
  discriminate.
Defined.

(** ** The pass file: the stages of [PassFileEntry] *)

Lemma noPassword_flag v :
  noPassword v ->
  match dburl.User v with
  | Some ui => url.passwordSet ui
  | None => false
  end = false.
Proof.
  unfold noPassword. intros H. destruct (dburl.User v) as [ui|]; auto.
Qed.

(** Past the password check and [os.Stat] on a regular file, the mode check
    decides. *)
Lemma PassFileEntry_regular w u v fi :
  noPassword v ->
  os_Stat w (PassFile w u) = StatOk fi -> IsDir fi = false ->
  PassFileEntry w u v =
    if negb (String.eqb (GOOS w) "windows") && negb (Z.land (Mode fi) 0x3f =? 0)%Z
    then Returns (None, Some (BadPassFileMode (PassFile w u)))
    else
      match readPassEntries w (PassFile w u) with
      | (_, Some err) => Returns (None, Some err)
      | (entries, None) =>
          if length (identity v) <? 3 then Returns (None, Some ErrNormalizingURL)
          else findEntry (identity v) (knownUsername v) entries
      end.
Proof.
  intros NP St Dir. unfold PassFileEntry.
  rewrite (noPassword_flag v NP), St, Dir. reflexivity.
Qed.

Lemma mode_check_passes w fi :
  GOOS w = "windows"%string \/ Z.land (Mode fi) 0x3f = 0%Z ->
  negb (String.eqb (GOOS w) "windows") && negb (Z.land (Mode fi) 0x3f =? 0)%Z = false.
Proof.
  intros [H|H].
  - rewrite H. reflexivity.
  - rewrite H. apply andb_false_r.
Qed.

(** Once the entries are read, the identity is checked and the entries are
    scanned. *)
Lemma PassFileEntry_scan w u v entries :
  readsEntries w u v entries ->
  PassFileEntry w u v =
    if length (identity v) <? 3 then Returns (None, Some ErrNormalizingURL)
    else findEntry (identity v) (knownUsername v) entries.
Proof.
  intros (NP & fi & St & Dir & Md & Rd).
  rewrite (PassFileEntry_regular w u v fi NP St Dir).
  rewrite (mode_check_passes w fi Md), Rd. reflexivity.
Qed.




(** ** Matching an entry against the identity *)

(** One round of the loop of [matchPassEntry] decides [fieldMatches]. *)
Lemma field_test (n entry : list string) (i : nat) (e c : string) :
  entry !! i = Some e -> n !! i = Some c ->
  (negb (String.eqb e "*") && negb (String.eqb e c) = false
   <-> fieldMatches n entry i).
Proof.
  intros He Hc. unfold fieldMatches. split.
  - intros H. exists e, c. repeat split; auto.
    apply andb_false_iff in H. destruct H as [H|H];
      apply negb_false_iff, String.eqb_eq in H; auto.
  - intros (e' & c' & He' & Hc' & H).
    rewrite He in He'. rewrite Hc in Hc'.
    injection He' as <-. injection Hc' as <-.
    destruct H as [->| ->].
    + reflexivity.
    + rewrite String.eqb_refl. apply andb_false_r.
Qed.

(** What the loop from index [i] yields, for every entry and identity:
    [true] when all remaining components match, [false] at the first one
    that does not, and a panic when the entry ends before a mismatch. *)
Lemma matchFrom_spec (n entry : list string) :
  forall k i, i + k = length n ->
  match matchFrom n entry i k with
  | Returns true => forall j, i <= j < length n -> fieldMatches n entry j
  | Returns false =>
      exists j, i <= j < length n /\ j < length entry
                /\ ~ fieldMatches n entry j
                /\ forall j', i <= j' < j -> fieldMatches n entry j'
  | Panics =>
      exists j, i <= j < length n /\ length entry <= j
                /\ forall j', i <= j' < j -> fieldMatches n entry j'
  end.
Proof.
  induction k as [|k IH]; intros i Hik; simpl.
  - intros j Hj. lia.
  - destruct (entry !! i) as [e|] eqn:He.
    + destruct (n !! i) as [c|] eqn:Hc.
      * destruct (negb (String.eqb e "*") && negb (String.eqb e c)) eqn:T.
        -- exists i. split; [lia|]. split; [eapply lookup_lt_Some; eauto|].
           split; [|intros; lia].
           intros M. apply (field_test n entry i e c He Hc) in M. congruence.
        -- apply (field_test n entry i e c He Hc) in T.
           specialize (IH (S i) ltac:(lia)).
           destruct (matchFrom n entry (S i) k) as [[|]|].
           ++ intros j Hj. destruct (decide (j = i)) as [->|]; [auto|].
              apply IH. lia.
           ++ destruct IH as (j & Hj & Hl & Hn & Hp).
              exists j. repeat split; try lia; auto.
              intros j' Hj'. destruct (decide (j' = i)) as [->|]; [auto|].
              apply Hp. lia.
           ++ destruct IH as (j & Hj & Hl & Hp).
              exists j. repeat split; try lia; auto.
              intros j' Hj'. destruct (decide (j' = i)) as [->|]; [auto|].
              apply Hp. lia.
      * apply lookup_ge_None in Hc. lia.
    + exists i. apply lookup_ge_None in He. repeat split; lia.
Qed.

Lemma fieldMatches_lt (n entry : list string) (j : nat) :
  fieldMatches n entry j -> j < length entry /\ j < length n.
Proof.
  intros (e & c & He & Hc & _).
  split; eapply lookup_lt_Some; eauto.
Qed.

(** The verdict of [matchPassEntry] on an entry of six fields. *)
Lemma matchPassEntry_cases (n entry : list string) :
  length entry = 6 ->
  (entryMatches n entry /\
     exists u p, entry !! 4 = Some u /\ entry !! 5 = Some p
                 /\ matchPassEntry n entry = Returns (u, p, true))
  \/ (~ entryMatches n entry /\
      (exists j, j < length n /\ j < 6 /\ ~ fieldMatches n entry j) /\
      matchPassEntry n entry = Returns (EmptyString, EmptyString, false))
  \/ (~ entryMatches n entry /\ 6 < length n /\
      (forall j, j < 6 -> fieldMatches n entry j) /\
      matchPassEntry n entry = Panics).
Proof.
  intros L. unfold matchPassEntry.
  pose proof (matchFrom_spec n entry (length n) 0 eq_refl) as S.
  destruct (matchFrom n entry 0 (length n)) as [[|]|].
  - left. split; [intros i Hi; apply S; lia|].
    destruct (lookup_lt_is_Some_2 entry 4) as [u Hu]; [lia|].
    destruct (lookup_lt_is_Some_2 entry 5) as [p Hp]; [lia|].
    exists u, p. rewrite Hu, Hp. auto.
  - right. left. destruct S as (j & Hj & Hl & Hn & _).
    split; [intros M; apply Hn, M; lia|].
    split; [exists j; repeat split; auto; lia | reflexivity].
  - right. right. destruct S as (j & Hj & Hl & Hp).
    split.
    { intros M. destruct (fieldMatches_lt n entry j); [apply M; lia | lia]. }
    split; [lia|]. split; [|reflexivity].
    intros j' Hj'. apply Hp. lia.
Qed.

(** ** Reading the pass file *)

Lemma firstEmpty_None (v : list string) (j0 : nat) :
  firstEmpty v j0 = None <-> forall f, In f v -> f <> EmptyString.
Proof.
  revert j0. induction v as [|f v IH]; intros j0; simpl.
  - split; [intros _ f [] | reflexivity].
  - destruct (String.eqb_spec f EmptyString) as [->|Hf].
    + split; [discriminate|]. intros H. exfalso. apply (H EmptyString); auto.
    + rewrite IH. split.
      * intros H g [<-|Hg]; auto.
      * intros H g Hg. apply H. auto.
Qed.

(** [firstEmpty] finds the least index of an empty field. *)
Lemma firstEmpty_Some (v : list string) (j0 j : nat) :
  firstEmpty v j0 = Some j <->
  exists k, j = j0 + k /\ v !! k = Some EmptyString
            /\ forall k', k' < k -> v !! k' <> Some EmptyString.
Proof.
  revert j0 j. induction v as [|f v IH]; intros j0 j; simpl.
  - split; [discriminate|]. intros (k & _ & H & _). discriminate H.
  - destruct (String.eqb_spec f EmptyString) as [->|Hf].
    + split.
      * intros [= <-]. exists 0. repeat split; [lia|]. intros k' Hk'. lia.
      * intros (k & -> & Hk & Hmin). destruct k as [|k]; [f_equal; lia|].
        exfalso. apply (Hmin 0); [lia | reflexivity].
    + rewrite IH. split.
      * intros (k & -> & Hk & Hmin). exists (S k). repeat split; [lia | exact Hk|].
        intros [|k'] Hk'; simpl; [congruence|]. apply Hmin. lia.
      * intros (k & -> & Hk & Hmin). destruct k as [|k]; [simpl in Hk; congruence|].
        exists k. repeat split; [lia | exact Hk|].
        intros k' Hk'. apply (Hmin (S k')). lia.
Qed.

Lemma goodLine_step (text : string) (rest : list string) (i : nat)
    (entries : list (list string)) :
  goodLine text ->
  scanEntries (text :: rest) i entries =
    scanEntries rest (S i) (entries ++ keptEntries [text]).
Proof.
  intros G. unfold keptEntries, isBlank. simpl.
  fold (cleaned text). fold (fields text).
  destruct (String.eqb_spec (cleaned text) EmptyString) as [E|E].
  - simpl. now rewrite app_nil_r.
  - destruct G as [G|[G1 G2]]; [contradiction|].
    rewrite G1. simpl.
    apply (firstEmpty_None _ 0) in G2. now rewrite G2.
Qed.

(** Lines that are all accepted are read through. *)
Lemma scanEntries_good (pre rest : list string) (i : nat)
    (entries : list (list string)) :
  (forall t, In t pre -> goodLine t) ->
  scanEntries (pre ++ rest) i entries =
    scanEntries rest (i + length pre) (entries ++ keptEntries pre).
Proof.
  revert i entries. induction pre as [|t pre IH]; intros i entries G.
  - simpl. unfold keptEntries. simpl. now rewrite app_nil_r, Nat.add_0_r.
  - change ((t :: pre) ++ rest) with (t :: (pre ++ rest)).
    rewrite goodLine_step by (apply G; left; reflexivity).
    rewrite IH by (intros t' Ht'; apply G; right; exact Ht').
    unfold keptEntries. simpl.
    replace (S (i + length pre)) with (i + S (length pre)) by lia.
    rewrite <- app_assoc. destruct (isBlank t); reflexivity.
Qed.

(** A failed read hands back no entry, and its error names a line. *)
Lemma scanEntries_error (lines : list string) :
  forall i entries es err,
  scanEntries lines i entries = (es, Some err) ->
  es = [] /\ exists k, i < k <= i + length lines
                      /\ (err = BadPassFileLine k \/ exists j, err = BadPassFileFieldEmpty k j).
Proof.
  induction lines as [|t lines IH]; intros i entries es err; simpl.
  - discriminate.
  - destruct (String.eqb (TrimSpace (stripComment t)) EmptyString).
    + intros H. apply IH in H. destruct H as (-> & k & Hk & Hs).
      split; [reflexivity|]. exists k. split; [lia | exact Hs].
    + destruct (negb (length (Split (TrimSpace (stripComment t)) colon) =? 6)).
      * intros [= <- <-]. split; [reflexivity|]. exists (S i). split; [lia | auto].
      * destruct (firstEmpty _ 0) as [j|].
        -- intros [= <- <-]. split; [reflexivity|]. exists (S i). split; [lia | eauto].
        -- intros H. apply IH in H. destruct H as (-> & k & Hk & Hs).
           split; [reflexivity|]. exists k. split; [lia | exact Hs].
Qed.

(** A read that succeeds accepted every line. *)
Lemma scanEntries_success (lines : list string) :
  forall i entries es,
  scanEntries lines i entries = (es, None) ->
  forall t, In t lines -> goodLine t.
Proof.
  induction lines as [|t lines IH]; intros i entries es H t' Ht'; [destruct Ht'|].
  simpl in H. fold (cleaned t) in H. fold (fields t) in H.
  assert (G : goodLine t /\ exists i' e', scanEntries lines i' e' = (es, None)).
  { destruct (String.eqb_spec (cleaned t) EmptyString) as [E|E].
    - split; [left; exact E | eauto].
    - destruct (length (fields t) =? 6) eqn:L6; [|discriminate].
      simpl in H. destruct (firstEmpty (fields t) 0) eqn:F; [discriminate|].
      split; [|eauto]. right. split; [now apply Nat.eqb_eq|].
      now apply (firstEmpty_None _ 0). }
  destruct G as (G & i' & e' & H').
  destruct Ht' as [<-|Ht']; [exact G|]. eapply IH; eauto.
Qed.

(** ** Comment stripping and trimming *)

(** [stripComment] keeps what stands before the first [#]. *)
Lemma stripComment_spec (text : string) :
  (exists rest, text = stripComment text +:+ rest
                /\ (rest = EmptyString \/ String.get 0 rest = Some "#"%char))
  /\ hasByte "#"%char (stripComment text) = false.
Proof.
  induction text as [|c t [(rest & E & R) N]]; simpl.
  - split; [exists EmptyString; auto | reflexivity].
  - destruct (Ascii.eqb c "#"%char) eqn:Hc.
    + apply Ascii.eqb_eq in Hc. subst c. split; [|reflexivity].
      exists (String "#"%char t). split; [reflexivity | right; reflexivity].
    + split.
      * exists rest. split; [|exact R].
        change (String c (stripComment t) +:+ rest)
          with (String c (stripComment t +:+ rest)).
        now rewrite <- E.
      * simpl. now rewrite Hc, N.
Qed.

Lemma dropPrefix_Some (p s r : string) :
  dropPrefix p s = Some r <-> s = p +:+ r.
Proof.
  revert s. induction p as [|a p IH]; intros s; simpl.
  - split; [intros [= ->]; reflexivity | intros ->; reflexivity].
  - destruct s as [|b s].
    + split; [discriminate|]. intros H. discriminate H.
    + change (String a p +:+ r) with (String a (p +:+ r)).
      destruct (Ascii.eqb_spec a b) as [->|Hab].
      * rewrite IH. split; [intros ->; reflexivity | intros [= ->]; reflexivity].
      * split; [discriminate|]. intros [= <- _]. congruence.
Qed.

Lemma dropAny_Some (ps : list string) (s r : string) :
  dropAny ps s = Some r -> exists p, In p ps /\ s = p +:+ r.
Proof.
  induction ps as [|p ps IH]; simpl; [discriminate|].
  destruct (dropPrefix p s) as [r'|] eqn:D.
  - intros [= ->]. exists p. split; [auto | now apply dropPrefix_Some].
  - intros H. destruct (IH H) as (q & Hq & E). eauto.
Qed.

Lemma dropAny_None (ps : list string) (s : string) :
  dropAny ps s = None <-> forall p r, In p ps -> s <> p +:+ r.
Proof.
  induction ps as [|p ps IH]; simpl.
  - split; [intros _ p r [] | reflexivity].
  - destruct (dropPrefix p s) as [r'|] eqn:D.
    + split; [discriminate|]. intros H. exfalso.
      apply (H p r'); [auto | now apply dropPrefix_Some].
    + rewrite IH. split.
      * intros H q r [<-|Hq]; [|auto].
        intros E. apply dropPrefix_Some in E. congruence.
      * intros H q r Hq. apply H. auto.
Qed.

(** The trimming loop only removes encodings from the front, and with
    fuel [len s] it stops at a string that starts with none of them. *)
Lemma trimLeftSpaces_prefix (ps : list string) (fuel : nat) (s : string) :
  exists qs, (forall q, In q qs -> In q ps)
             /\ s = concatStrings qs +:+ trimLeftSpaces ps fuel s.
Proof.
  revert s. induction fuel as [|fuel IH]; intros s; simpl.
  - exists []. split; [intros q [] | reflexivity].
  - destruct (dropAny ps s) as [r|] eqn:D.
    + destruct (dropAny_Some _ _ _ D) as (p & Hp & ->).
      destruct (IH r) as (qs & Hqs & E). exists (p :: qs). split.
      * intros q [<-|Hq]; auto.
      * simpl. rewrite append_assoc. now rewrite <- E.
    + exists []. split; [intros q [] | reflexivity].
Qed.

Lemma trimLeftSpaces_done (ps : list string) :
  (forall p, In p ps -> p <> EmptyString) ->
  forall fuel s, len s <= fuel ->
  dropAny ps (trimLeftSpaces ps fuel s) = None.
Proof.
  intros NE. induction fuel as [|fuel IH]; intros s L; simpl.
  - destruct s; [|simpl in L; lia].
    apply dropAny_None. intros p r Hp E.
    destruct p; [now apply (NE _ Hp) | discriminate E].
  - destruct (dropAny ps s) as [r|] eqn:D; [|exact D].
    apply IH. destruct (dropAny_Some _ _ _ D) as (p & Hp & ->).
    rewrite len_app in L. destruct p; [now destruct (NE _ Hp)|].
    simpl in L. lia.
Qed.

Lemma rev_app_spec (s1 s2 : string) :
  String.rev_app s1 s2 = String.rev s1 +:+ s2.
Proof.
  revert s2. induction s1 as [|a s1 IH]; intros s2; [reflexivity|].
  unfold String.rev. simpl. rewrite (IH (String a s2)), (IH (String a EmptyString)).
  now rewrite append_assoc.
Qed.

Lemma rev_cons (a : ascii) (s : string) :
  String.rev (String a s) = String.rev s +:+ String a EmptyString.
Proof. unfold String.rev at 1. simpl. apply rev_app_spec. Qed.

Lemma rev_append (a b : string) :
  String.rev (a +:+ b) = String.rev b +:+ String.rev a.
Proof.
  induction a as [|x a IH].
  - change (EmptyString +:+ b) with b. now rewrite append_empty_r.
  - change (String x a +:+ b) with (String x (a +:+ b)).
    now rewrite !rev_cons, IH, append_assoc.
Qed.

Lemma rev_involutive (s : string) : String.rev (String.rev s) = s.
Proof.
  induction s as [|x s IH]; [reflexivity|].
  now rewrite rev_cons, rev_append, IH.
Qed.

Lemma len_rev (s : string) : len (String.rev s) = len s.
Proof.
  induction s as [|x s IH]; [reflexivity|].
  rewrite rev_cons, len_app, IH. simpl. lia.
Qed.

Lemma spaceEncodings_nonempty (p : string) :
  In p spaceEncodings -> p <> EmptyString.
Proof.
  intros H.
  assert (F : List.Forall (fun q => q <> EmptyString) spaceEncodings).
  { unfold spaceEncodings. simpl. repeat constructor; discriminate. }
  exact (proj1 (List.Forall_forall _ _) F p H).
Qed.

Lemma rev_concatStrings (qs : list string) :
  String.rev (concatStrings qs) = concatStrings (map String.rev (List.rev qs)).
Proof.
  induction qs as [|q qs IH]; [reflexivity|].
  simpl. rewrite rev_append, IH, map_app.
  generalize (map String.rev (List.rev qs)). intros l.
  induction l as [|x l IHl]; simpl.
  - now rewrite append_empty_r.
  - now rewrite append_assoc, IHl.
Qed.

(** [TrimSpace s] is [s] without the white-space runes at its two ends:
    [s] is encodings of white space, then [TrimSpace s], then encodings of
    white space, and [TrimSpace s] neither starts nor ends with one. *)
Lemma TrimSpace_spec (s : string) :
  (exists front back,
      (forall q, In q front -> In q spaceEncodings)
      /\ (forall q, In q back -> In q spaceEncodings)
      /\ s = concatStrings front +:+ TrimSpace s +:+ concatStrings back)
  /\ forall p r, In p spaceEncodings ->
       TrimSpace s <> p +:+ r /\ TrimSpace s <> r +:+ p.
Proof.
  unfold TrimSpace.
  set (l := trimLeftSpaces spaceEncodings (len s) s).
  set (t := trimLeftSpaces (map String.rev spaceEncodings) (len l) (String.rev l)).
  destruct (trimLeftSpaces_prefix spaceEncodings (len s) s) as (front & Hf & Ea).
  fold l in Ea.
  destruct (trimLeftSpaces_prefix (map String.rev spaceEncodings) (len l) (String.rev l))
    as (rb & Hrb & Eb).
  fold t in Eb.
  assert (El : l = String.rev t +:+ String.rev (concatStrings rb)).
  { rewrite <- rev_append, <- Eb. now rewrite rev_involutive. }
  assert (Dl : dropAny spaceEncodings l = None).
  { apply trimLeftSpaces_done; [exact spaceEncodings_nonempty | lia]. }
  assert (Dt : dropAny (map String.rev spaceEncodings) t = None).
  { apply trimLeftSpaces_done; [|rewrite len_rev; lia].
    intros p Hp. apply in_map_iff in Hp. destruct Hp as (q & <- & Hq).
    intros E. apply (spaceEncodings_nonempty q Hq).
    rewrite <- (rev_involutive q), E. reflexivity. }
  split.
  - exists front, (map String.rev (List.rev rb)). split; [exact Hf|]. split.
    + intros q Hq. apply in_map_iff in Hq. destruct Hq as (x & <- & Hx).
      apply in_rev in Hx. apply Hrb, in_map_iff in Hx.
      destruct Hx as (y & <- & Hy). now rewrite rev_involutive.
    + rewrite <- rev_concatStrings, <- El. exact Ea.
  - intros p r Hp. split; intros E.
    + rewrite E, append_assoc in El.
      exact (proj1 (dropAny_None _ _) Dl p _ Hp El).
    + apply (proj1 (dropAny_None _ _) Dt (String.rev p) (String.rev r)).
      * apply in_map. exact Hp.
      * rewrite <- rev_append, <- E. now rewrite rev_involutive.
Qed.

Lemma hasByte_app (c : ascii) (a b : string) :
  hasByte c (a +:+ b) = hasByte c a || hasByte c b.
Proof.
  induction a as [|x a IH]; [reflexivity|].
  change (String x a +:+ b) with (String x (a +:+ b)). simpl.
  now rewrite IH, orb_assoc.
Qed.

Lemma hasByte_rev (c : ascii) (s : string) :
  hasByte c (String.rev s) = hasByte c s.
Proof.
  induction s as [|x s IH]; [reflexivity|].
  rewrite rev_cons, hasByte_app, IH. simpl.
  rewrite orb_false_r. apply orb_comm.
Qed.

Lemma splitAcc_nonempty (sep : ascii) (s cur : string) :
  splitAcc sep s cur <> [].
Proof.
  revert cur. induction s as [|c s IH]; intros cur; simpl; [discriminate|].
  destruct (Ascii.eqb c sep); [discriminate | apply IH].
Qed.

Lemma splitAcc_join (sep : ascii) (s cur : string) :
  joinFields sep (splitAcc sep s cur) = String.rev cur +:+ s.
Proof.
  revert cur. induction s as [|c s IH]; intros cur; cbn [splitAcc].
  - cbn [joinFields]. now rewrite append_empty_r.
  - destruct (Ascii.eqb_spec c sep) as [->|Hc].
    + destruct (splitAcc sep s EmptyString) as [|f r] eqn:Es.
      { now apply splitAcc_nonempty in Es. }
      change (joinFields sep (String.rev cur :: f :: r))
        with (String.rev cur +:+ String sep (joinFields sep (f :: r))).
      rewrite <- Es, IH. reflexivity.
    + rewrite IH, rev_cons, append_assoc. reflexivity.
Qed.

Lemma splitAcc_fields (sep : ascii) (s cur : string) :
  hasByte sep cur = false ->
  forall f, In f (splitAcc sep s cur) -> hasByte sep f = false.
Proof.
  revert cur. induction s as [|c s IH]; intros cur Hcur f; simpl.
  - intros [<-|[]]. now rewrite hasByte_rev.
  - destruct (Ascii.eqb c sep) eqn:E.
    + intros [<-|Hf]; [now rewrite hasByte_rev|].
      apply (IH EmptyString); auto.
    + apply IH. simpl. now rewrite E, Hcur.
Qed.

(** [Split s sep] cuts [s] at every [sep]: joining the fields with [sep]
    gives [s] back, and no field holds a [sep]. *)
Lemma Split_spec (s : string) (sep : ascii) :
  joinFields sep (Split s sep) = s
  /\ forall f, In f (Split s sep) -> hasByte sep f = false.
Proof.
  unfold Split. split.
  - apply (splitAcc_join sep s EmptyString).
  - apply splitAcc_fields. reflexivity.
Qed.

(** C3. Reading the pass file.  Each line is cut at its first [#], trimmed
    of white space on both sides and, unless that leaves nothing, split at
    every colon.  Lines that are blank or hold six nonempty fields are read
    through, the entries kept in order.  The first line that is neither
    ends the read: a field count other than six gives [BadPassFileLine]
    with the line's number, an empty field among six gives
    [BadPassFileFieldEmpty] with the line's number and the field's index.
    A read that fails hands back no entry, and [PassFileEntry] returns that
    error without matching anything. *)
Theorem readPassEntries_parse (w : World) (path : string) (lines : list string) :
  os_Open w path = OpenLines lines ->
  (forall t,
      (exists front back rest,
          (forall q, In q front -> In q spaceEncodings)
          /\ (forall q, In q back -> In q spaceEncodings)
          /\ t = (concatStrings front +:+ cleaned t +:+ concatStrings back) +:+ rest
          /\ (rest = EmptyString \/ String.get 0 rest = Some "#"%char))
      /\ hasByte "#"%char (cleaned t) = false
      /\ (forall p r, In p spaceEncodings ->
            cleaned t <> p +:+ r /\ cleaned t <> r +:+ p)
      /\ joinFields colon (fields t) = cleaned t
      /\ (forall f, In f (fields t) -> hasByte colon f = false))
  /\ ((forall t, In t lines -> goodLine t) ->
      readPassEntries w path = (keptEntries lines, None))
  /\ (forall pre t post,
        lines = pre ++ t :: post ->
        (forall t', In t' pre -> goodLine t') ->
        cleaned t <> EmptyString -> length (fields t) <> 6 ->
        readPassEntries w path = ([], Some (BadPassFileLine (S (length pre)))))
  /\ (forall pre t post j,
        lines = pre ++ t :: post ->
        (forall t', In t' pre -> goodLine t') ->
        cleaned t <> EmptyString -> length (fields t) = 6 ->
        fields t !! j = Some EmptyString ->
        (forall j', j' < j -> fields t !! j' <> Some EmptyString) ->
        readPassEntries w path =
          ([], Some (BadPassFileFieldEmpty (S (length pre)) j)))
  /\ (forall es err,
        readPassEntries w path = (es, Some err) ->
        es = []
        /\ forall u v fi,
             path = PassFile w u -> noPassword v ->
             os_Stat w path = StatOk fi -> IsDir fi = false ->
             (GOOS w = "windows"%string \/ Z.land (Mode fi) 0x3f = 0%Z) ->
             PassFileEntry w u v = Returns (None, Some err)).
Proof.
  intros Op.
  assert (R : readPassEntries w path = scanEntries lines 0 []).
  { unfold readPassEntries. now rewrite Op. }
  split; [|split; [|split; [|split]]].
  - intros t. unfold fields, cleaned.
    destruct (stripComment_spec t) as ((rest & Et & Hrest) & Hh).
    destruct (TrimSpace_spec (stripComment t)) as ((front & back & Hf & Hb & Es) & Ht).
    destruct (Split_spec (TrimSpace (stripComment t)) colon) as (J & F).
    split; [|split; [|split; [exact Ht | split; [exact J | exact F]]]].
    + exists front, back, rest. rewrite <- Es. auto.
    + rewrite Es, !hasByte_app in Hh.
      apply orb_false_iff in Hh. destruct Hh as (_ & Hh).
      apply orb_false_iff in Hh. tauto.
  - intros G. rewrite R.
    rewrite <- (app_nil_r lines) at 1.
    rewrite (scanEntries_good lines [] 0 [] G). reflexivity.
  - intros pre t post -> G Hne Hlen. rewrite R.
    rewrite (scanEntries_good pre (t :: post) 0 [] G). simpl.
    fold (cleaned t). fold (fields t).
    apply String.eqb_neq in Hne. rewrite Hne.
    apply Nat.eqb_neq in Hlen. rewrite Hlen. reflexivity.
  - intros pre t post j -> G Hne Hlen Hj Hmin. rewrite R.
    rewrite (scanEntries_good pre (t :: post) 0 [] G). simpl.
    fold (cleaned t). fold (fields t).
    apply String.eqb_neq in Hne. rewrite Hne, Hlen. simpl.
    assert (F : firstEmpty (fields t) 0 = Some j).
    { apply firstEmpty_Some. exists j. auto. }
    rewrite F. reflexivity.
  - intros es err E.
    assert (es = []) as ->.
    { rewrite R in E. now apply scanEntries_error in E. }
    split; [reflexivity|].
    intros u v fi -> NP St Dir Md.
    rewrite (PassFileEntry_regular w u v fi NP St Dir).
    rewrite (mode_check_passes w fi Md), E. reflexivity.
Qed.

(** A pass file whose third line has three fields, and one whose first
    line has an empty second field. *)
Lemma readPassEntries_parse_witness :
  readPassEntries
    (sampleWorld "linux" (regularFile 384)
       ["# secrets"; " pg:localhost:5432:db:alice:secret # main"; "a:b:c"; "x"]%string)
    "/home/u/.usqlpass"
  = ([], Some (BadPassFileLine 3))
  /\ readPassEntries
       (sampleWorld "linux" (regularFile 384) ["pg::5432:db:alice:secret"]%string)
       "/home/u/.usqlpass"
     = ([], Some (BadPassFileFieldEmpty 1 1)).
Proof.
  split.
  - apply (proj1 (proj2 (proj2 (readPassEntries_parse
             (sampleWorld "linux" (regularFile 384)
                ["# secrets"; " pg:localhost:5432:db:alice:secret # main"; "a:b:c"; "x"]%string)
             "/home/u/.usqlpass" _ eq_refl)))
           ["# secrets"; " pg:localhost:5432:db:alice:secret # main"]%string
           "a:b:c"%string ["x"%string] eq_refl).
    + intros t [<-|[<-|[]]].
      * left. vm_compute. reflexivity.
      * right. split; [vm_compute; reflexivity|].
        intros f Hf. vm_compute in Hf.
        repeat (destruct Hf as [<-|Hf]; [discriminate|]). destruct Hf.
    + vm_compute. discriminate.
    + vm_compute. discriminate.
  - apply (proj1 (proj2 (proj2 (proj2 (readPassEntries_parse
             (sampleWorld "linux" (regularFile 384) ["pg::5432:db:alice:secret"]%string)
             "/home/u/.usqlpass" _ eq_refl))))
           [] "pg::5432:db:alice:secret"%string [] 1 eq_refl).
    + intros t [].
    + vm_compute. discriminate.
    + vm_compute. reflexivity.
    + vm_compute. reflexivity.
    + intros j' Hj'. assert (j' = 0) as -> by lia. vm_compute. discriminate.
Defined.

(** ** Scanning the entries *)

(** Every entry that [readPassEntries] hands back has six nonempty fields. *)
Lemma readPassEntries_entries (w : World) (path : string)
    (entries : list (list string)) :
  readPassEntries w path = (entries, None) ->
  forall e, In e entries ->
    length e = 6 /\ forall f, In f e -> f <> EmptyString.
Proof.
  unfold readPassEntries. destruct (os_Open w path) as [err|lines]; [discriminate|].
  intros H.
  pose proof (scanEntries_success lines 0 [] entries H) as G.
  pose proof (scanEntries_good lines [] 0 [] G) as E.
  rewrite app_nil_r in E. rewrite E in H. simpl in H.
  injection H as <-.
  intros e He. unfold keptEntries in He.
  apply in_map_iff in He. destruct He as (t & <- & Ht).
  apply filter_In in Ht. destruct Ht as (Ht & Hb).
  destruct (G t Ht) as [B|B]; [|exact B].
  unfold isBlank in Hb. rewrite B in Hb. discriminate Hb.
Qed.

Lemma findEntry_first (n : list string) (username : string)
    (pre : list (list string)) (entry : list string) (post : list (list string))
    (u0 p : string) :
  (forall e, In e pre -> matchPassEntry n e = Returns (EmptyString, EmptyString, false)) ->
  matchPassEntry n entry = Returns (u0, p, true) ->
  findEntry n username (pre ++ entry :: post) =
    Returns (Some (url.UserPassword (if String.eqb u0 "*" then username else u0) p), None).
Proof.
  intros Hpre Hm. induction pre as [|e pre IH]; simpl.
  - now rewrite Hm.
  - rewrite (Hpre e) by (left; reflexivity).
    apply IH. intros e' He'. apply Hpre. right. exact He'.
Qed.

Lemma findEntry_none (n : list string) (username : string)
    (entries : list (list string)) :
  (forall e, In e entries -> matchPassEntry n e = Returns (EmptyString, EmptyString, false)) ->
  findEntry n username entries = Returns (None, None).
Proof.
  induction entries as [|e entries IH]; intros H; simpl; [reflexivity|].
  rewrite (H e) by (left; reflexivity).
  apply IH. intros e' He'. apply H. right. exact He'.
Qed.

Lemma entryMatches_bound (n entry : list string) :
  entryMatches n entry -> length n <= length entry.
Proof.
  intros M. destruct (le_lt_dec (length n) (length entry)) as [|L]; [assumption|].
  destruct (fieldMatches_lt n entry (length entry)); [apply M; lia | lia].
Qed.

(** An entry of six fields that does not match is passed over, as long as
    the identity has at most six components. *)
Lemma matchPassEntry_no_match (n entry : list string) :
  length entry = 6 -> length n <= 6 -> ~ entryMatches n entry ->
  matchPassEntry n entry = Returns (EmptyString, EmptyString, false).
Proof.
  intros L6 Ln NM.
  destruct (matchPassEntry_cases n entry L6)
    as [(M & _)|[(_ & _ & E)|(_ & Hn & _)]]; [contradiction | exact E | lia].
Qed.

(** X22. What the scan does where it does not run past an entry.  Once
    the entries are read and the identity [n] has its three components: an
    entry matches exactly when each of its fields, at every index of [n],
    is the wildcard or equals that component of [n]; the first matching
    entry in file order decides, whatever follows it, and its user name,
    replaced by the URL's own when it is the wildcard, is returned with its
    password; when no entry matches and the identity has at most six
    components, the width of an entry, the result is nil with no error. *)
Theorem PassFileEntry_first_match (w : World) (u : User) (v : dburl.URL)
    (entries : list (list string)) :
  readsEntries w u v entries ->
  3 <= length (identity v) ->
  (forall entry, In entry entries ->
     (entryMatches (identity v) entry <->
      exists u0 p, matchPassEntry (identity v) entry = Returns (u0, p, true)))
  /\ (forall pre entry post,
        entries = pre ++ entry :: post ->
        (forall e, In e pre -> ~ entryMatches (identity v) e) ->
        entryMatches (identity v) entry ->
        exists u0 p,
          entry !! 4 = Some u0 /\ entry !! 5 = Some p
          /\ PassFileEntry w u v =
               Returns (Some (url.UserPassword
                                (if String.eqb u0 "*" then knownUsername v else u0) p),
                        None))
  /\ (length (identity v) <= 6 ->
      (forall e, In e entries -> ~ entryMatches (identity v) e) ->
      PassFileEntry w u v = Returns (None, None)).
Proof.
  intros RE L3.
  rewrite (PassFileEntry_scan w u v entries RE).
  assert (L3b : (length (identity v) <? 3) = false) by (apply Nat.ltb_ge; lia).
  rewrite L3b.
  destruct RE as (_ & fi & _ & _ & _ & Rd).
  pose proof (readPassEntries_entries w _ entries Rd) as Six.
  split; [|split].
  - intros entry He. destruct (Six entry He) as (L6 & _).
    destruct (matchPassEntry_cases (identity v) entry L6)
      as [(M & u0 & p & _ & _ & E)|[(NM & _ & E)|(NM & _ & _ & E)]].
    + split; eauto.
    + split; [contradiction|]. intros (u0 & p & E'). congruence.
    + split; [contradiction|]. intros (u0 & p & E'). congruence.
  - intros pre entry post -> Hpre M.
    assert (L6 : length entry = 6).
    { apply Six. apply in_or_app. right. left. reflexivity. }
    pose proof (entryMatches_bound _ _ M) as Ln. rewrite L6 in Ln.
    destruct (matchPassEntry_cases (identity v) entry L6)
      as [(_ & u0 & p & H4 & H5 & E)|[(NM & _)|(NM & _)]]; try contradiction.
    exists u0, p. split; [exact H4|]. split; [exact H5|].
    apply findEntry_first; [|exact E].
    intros e He. apply matchPassEntry_no_match; auto.
    apply Six. apply in_or_app. left. exact He.
  - intros Ln NM. apply findEntry_none.
    intros e He. apply matchPassEntry_no_match; auto. now apply Six.
Qed.

(** A pass file of three entries against the identity
    [postgres:localhost:5432:db] of a URL whose user is [bob]: the first
    entry is for another driver, the second matches and leaves the user
    open, the third would match too. *)
Lemma PassFileEntry_first_match_witness :
  PassFileEntry
    (sampleWorld "linux" (regularFile 384)
       ["mysql:*:*:*:root:pw"; "*:*:*:*:*:secret"; "*:*:*:*:alice:other"]%string)
    sampleUser
    (sampleURL (Some {| url.username := "bob"; url.password := ""; url.passwordSet := false |})
       "postgres:localhost:5432:db")
  = Returns (Some (url.UserPassword "bob" "secret"), None).
Proof.
  pose (w := sampleWorld "linux" (regularFile 384)
       ["mysql:*:*:*:root:pw"; "*:*:*:*:*:secret"; "*:*:*:*:alice:other"]%string).
  pose (v := sampleURL (Some {| url.username := "bob"; url.password := ""; url.passwordSet := false |})
       "postgres:localhost:5432:db").
  pose (entries := [ ["mysql"; "*"; "*"; "*"; "root"; "pw"];
                     ["*"; "*"; "*"; "*"; "*"; "secret"];
                     ["*"; "*"; "*"; "*"; "alice"; "other"] ]%string).
  assert (RE : readsEntries w sampleUser v entries).
  { split.
    - intros ui [= <-]. reflexivity.
    - exists {| IsDir := false; Mode := 384 |}.
      repeat split; try reflexivity. right. reflexivity. }
  assert (L3 : 3 <= length (identity v)) by (vm_compute; lia).
  destruct (proj1 (proj2 (PassFileEntry_first_match w sampleUser v entries RE L3))
              [ ["mysql"; "*"; "*"; "*"; "root"; "pw"]%string ]
              ["*"; "*"; "*"; "*"; "*"; "secret"]%string
              [ ["*"; "*"; "*"; "*"; "alice"; "other"]%string ]
              eq_refl)
    as (u0 & p & H4 & H5 & E).
  - intros e [<-|[]] M.
    destruct (M 0) as (f & c & Hf & Hc & [Hw|Heq]); [vm_compute; lia|..];
      vm_compute in Hf, Hc; congruence.
  - intros i Hi. vm_compute in Hi.
    assert (i = 0 \/ i = 1 \/ i = 2 \/ i = 3) as [->|[->|[->| ->]]] by lia;
      vm_compute; eexists _, _; repeat split; auto.
  - injection H4 as <-. injection H5 as <-. exact E.
Defined.

(** C2, where the code breaks it.  [matchPassEntry] reads [entry[i]] for
    every index of the identity with no check against the width of the
    entry.  Against an identity of seven components, the entry of six
    wildcards matches no rule of the claim (it has no seventh field), so
    the lookup should pass it over and return nil with no error, as the
    [return nil, nil] after the loop does for every other entry that does
    not match; instead it panics on [entry[6]]. *)
Lemma PassFileEntry_first_match_wide_identity :
  readsEntries
    (sampleWorld "linux" (regularFile 384) ["*:*:*:*:*:*"%string])
    sampleUser (sampleURL None "pg:a:b:c:d:e:f")
    [ ["*"; "*"; "*"; "*"; "*"; "*"]%string ]
  /\ length (identity (sampleURL None "pg:a:b:c:d:e:f")) = 7
  /\ (forall e, In e [ ["*"; "*"; "*"; "*"; "*"; "*"]%string ] ->
        ~ entryMatches (identity (sampleURL None "pg:a:b:c:d:e:f")) e)
  /\ PassFileEntry
       (sampleWorld "linux" (regularFile 384) ["*:*:*:*:*:*"%string])
       sampleUser (sampleURL None "pg:a:b:c:d:e:f")
     = Panics.
Proof.
  split; [|split; [|split]].
  - split.
    + intros ui H. discriminate H.
    + exists {| IsDir := false; Mode := 384 |}.
      repeat split; try reflexivity. right. reflexivity.
  - reflexivity.
  - intros e [<-|[]] M.
    apply entryMatches_bound in M. vm_compute in M. lia.
  - vm_compute. reflexivity.
Qed.

(** C8. [matchPassEntry] reads [entry[i]] at every index [i] of the
    identity.  On entries of six fields, as all parsed entries are, it
    returns for every entry exactly when the identity has at most six
    components; it panics exactly when the identity is longer and the six
    fields all match.  [PassFileEntry] turns away an identity of fewer than
    three components and lets any longer one through, so that a lookup with
    seven components can panic. *)
Theorem matchPassEntry_index_bound :
  (forall w path entries,
      readPassEntries w path = (entries, None) ->
      forall e, In e entries -> length e = 6)
  /\ (forall n,
        (forall entry, length entry = 6 -> exists r, matchPassEntry n entry = Returns r)
        <-> length n <= 6)
  /\ (forall n entry, length entry = 6 ->
        (matchPassEntry n entry = Panics
         <-> 6 < length n /\ forall j, j < 6 -> fieldMatches n entry j))
  /\ (forall w u v entries,
        readsEntries w u v entries -> length (identity v) < 3 ->
        PassFileEntry w u v = Returns (None, Some ErrNormalizingURL))
  /\ (forall w u v entries,
        readsEntries w u v entries -> 3 <= length (identity v) ->
        PassFileEntry w u v = findEntry (identity v) (knownUsername v) entries)
  /\ PassFileEntry
       (sampleWorld "linux" (regularFile 384) ["*:*:*:*:*:*"%string])
       sampleUser (sampleURL None "pg:a:b:c:d:e:f")
     = Panics.
Proof.
  assert (P : forall n entry, length entry = 6 ->
        (matchPassEntry n entry = Panics
         <-> 6 < length n /\ forall j, j < 6 -> fieldMatches n entry j)).
  { intros n entry L6.
    destruct (matchPassEntry_cases n entry L6)
      as [(M & u0 & p & _ & _ & E)|[(NM & (j & Hj & Hj6 & Hn) & E)|(NM & Hl & Hall & E)]].
    - rewrite E. split; [discriminate|]. intros (Hl & _).
      apply entryMatches_bound in M. lia.
    - rewrite E. split; [discriminate|]. intros (_ & Hall).
      destruct Hn. now apply Hall.
    - split; auto. }
  split; [|split; [|split; [exact P | split; [|split]]]].
  - intros w path entries H e He.
    now apply (readPassEntries_entries w path entries H e He).
  - intros n. split.
    + intros H. destruct (le_lt_dec (length n) 6) as [|L]; [assumption|].
      exfalso.
      destruct (H (replicate 6 "*"%string) eq_refl) as (r & E).
      assert (Pn : matchPassEntry n (replicate 6 "*"%string) = Panics).
      { apply P; [reflexivity|]. split; [exact L|].
        intros j Hj.
        destruct (lookup_lt_is_Some_2 n j) as [c Hc]; [lia|].
        exists "*"%string, c. split; [|auto].
        apply lookup_replicate. auto. }
      congruence.
    + intros Ln entry L6.
      destruct (matchPassEntry n entry) as [r|] eqn:E; [eauto|].
      apply P in E; [lia | exact L6].
  - intros w u v entries RE L.
    rewrite (PassFileEntry_scan w u v entries RE).
    apply Nat.ltb_lt in L. now rewrite L.
  - intros w u v entries RE L.
    rewrite (PassFileEntry_scan w u v entries RE).
    assert (L' : (length (identity v) <? 3) = false) by (apply Nat.ltb_ge; lia).
    now rewrite L'.
  - vm_compute. reflexivity.
Qed.

Lemma matchPassEntry_index_bound_witness :
  (exists r,
     matchPassEntry ["pg"; "localhost"; "5432"; "db"]%string
       ["*"; "*"; "*"; "*"; "alice"; "secret"]%string = Returns r)
  /\ matchPassEntry ["pg"; "a"; "b"; "c"; "d"; "e"; "f"]%string
       ["*"; "*"; "*"; "*"; "*"; "*"]%string = Panics.
Proof.
  split.
  - apply (proj2 (proj1 (proj2 matchPassEntry_index_bound)
                    ["pg"; "localhost"; "5432"; "db"]%string)
             ltac:(simpl; lia)
             ["*"; "*"; "*"; "*"; "alice"; "secret"]%string eq_refl).
  - apply (proj2 (proj1 (proj2 (proj2 matchPassEntry_index_bound))
                    ["pg"; "a"; "b"; "c"; "d"; "e"; "f"]%string
                    ["*"; "*"; "*"; "*"; "*"; "*"]%string eq_refl)).
    split; [simpl; lia|].
    intros j Hj.
    assert (j = 0 \/ j = 1 \/ j = 2 \/ j = 3 \/ j = 4 \/ j = 5)
      as [->|[->|[->|[->|[->| ->]]]]] by lia;
      eexists _, _; repeat split; auto.
Defined.

(** ** The command registry *)

(** The keys assigned by [init], in order: the table does not depend on
    the command name. *)
Lemma init_assigned (CommandName : string) :
  assigned (init CommandName) =
    [ "?"; "?"; "? "; "q"; "quit"; "copyright"; "conninfo"; "password";
      "passwd"; "p"; "print"; "raw"; "r"; "reset"; "begin"; "commit";
      "rollback"; "prompt"; "set"; "unset"; "pset"; "a"; "C"; "f"; "H"; "T";
      "t"; "x" ]%string.
Proof. reflexivity. Qed.

Lemma init_assigned_names (CommandName : string) :
  assigned (init CommandName) =
    concat (map (fun ic => names (snd ic)) (tail (cmds CommandName))).
Proof. reflexivity. Qed.

(** Every name of every command is a key of [cmdMap], for that command. *)
Lemma init_cmdMap (CommandName : string) (mc : Metacmd.t) (c : Cmd) (k : string) :
  In (mc, c) (cmds CommandName) -> Metacmd.eqb mc Metacmd.None = false ->
  In k (names c) -> cmdMap (init CommandName) !! k = Some mc.
Proof.
  intros Hc Hmc Hk. unfold cmds in Hc. simpl in Hc.
  repeat (destruct Hc as [Hc|Hc];
    [ injection Hc as <- <-; try discriminate Hmc;
      simpl in Hk; repeat (destruct Hk as [<-|Hk]; [vm_compute; reflexivity|]);
      destruct Hk
    | ]).
  destruct Hc.
Qed.

(** C4, as the code has it.  [init] assigns every command's name and every
    alias in [cmdMap], each to its command, and no key belongs to two
    commands.  One key is assigned twice: [?] is both the name and an alias
    of [Question]; every other key is assigned once. *)
Theorem init_registry (CommandName : string) :
  (forall mc c k,
      In (mc, c) (cmds CommandName) -> Metacmd.eqb mc Metacmd.None = false ->
      In k (names c) ->
      In k (assigned (init CommandName))
      /\ cmdMap (init CommandName) !! k = Some mc)
  /\ (forall mc1 c1 mc2 c2 k,
        In (mc1, c1) (cmds CommandName) -> Metacmd.eqb mc1 Metacmd.None = false ->
        In (mc2, c2) (cmds CommandName) -> Metacmd.eqb mc2 Metacmd.None = false ->
        In k (names c1) -> In k (names c2) -> mc1 = mc2)
  /\ count_occ string_dec (assigned (init CommandName)) "?" = 2
  /\ cmdMap (init CommandName) !! "?"%string = Some Metacmd.Question
  /\ (forall k, k <> "?"%string ->
        count_occ string_dec (assigned (init CommandName)) k <= 1).
Proof.
  split; [|split; [|split; [|split]]].
  - intros mc c k Hc Hmc Hk. split; [|now apply (init_cmdMap CommandName mc c k)].
    rewrite init_assigned_names.
    apply in_concat. exists (names c). split; [|exact Hk].
    apply in_map_iff. exists (mc, c). split; [reflexivity|].
    unfold cmds in Hc |- *. simpl in Hc |- *.
    destruct Hc as [Hc|Hc]; [|exact Hc].
    injection Hc as <- <-. discriminate Hmc.
  - intros mc1 c1 mc2 c2 k H1 N1 H2 N2 K1 K2.
    pose proof (init_cmdMap CommandName mc1 c1 k H1 N1 K1) as E1.
    pose proof (init_cmdMap CommandName mc2 c2 k H2 N2 K2) as E2.
    congruence.
  - reflexivity.
  - vm_compute. reflexivity.
  - intros k Hk. rewrite init_assigned.
    rewrite count_occ_cons_neq by congruence.
    apply (List.NoDup_count_occ string_dec).
    apply NoDup_ListNoDup.
    apply (bool_decide_unpack _). vm_compute. reflexivity.
Qed.

Lemma init_registry_witness :
  In "quit"%string (assigned (init "usql"))
  /\ cmdMap (init "usql") !! "quit"%string = Some Metacmd.Quit.
Proof.
  apply (proj1 (init_registry "usql") Metacmd.Quit
           {| cmd_Section := SectionGeneral; cmd_Name := "q";
              cmd_Desc := "quit " +:+ "usql"; cmd_Min := 0;
              cmd_Aliases := [ ("quit", "") ]%string |} "quit"%string).
  - right. right. left. reflexivity.
  - reflexivity.
  - right. left. reflexivity.
Defined.

(** C4 as stated fails: the keys are not all distinct.  [?] is the name of
    [Question] and one of its aliases, so [init] assigns it twice. *)
Lemma init_registry_key_assigned_twice :
  In (Metacmd.Question,
      {| cmd_Section := SectionHelp; cmd_Name := "?";
         cmd_Desc := "show help on backslash commands,[commands]";
         cmd_Min := 0;
         cmd_Aliases :=
           [ ("?", "show help on " +:+ "usql" +:+ " command-line options,options");
             ("? ", "show help on special variables,variables") ]%string |})
     (cmds "usql")
  /\ count_occ string_dec (assigned (init "usql")) "?" = 2
  /\ ~ List.NoDup (assigned (init "usql")).
Proof.
  split; [right; left; reflexivity|]. split; [reflexivity|].
  rewrite init_assigned. intros H.
  apply List.NoDup_cons_iff in H. destruct H as (H & _). apply H. left. reflexivity.
Qed.

(** ** The status line of [\pset] *)

Section StatusLine.
Context {PV : Type} (d : Deps PV).


End StatusLine.



(** ** Further properties of the resolver *)

(** X1. A token that starts with none of [:], ['] and the double quote is
    handed back as it is, with no error, whatever the variables are. *)
Theorem Unquote_plain_token (vars : gmap string string) (u : User) (s : string) :
  (forall c, String.get 0 s = Some c ->
     Ascii.eqb c colon = false /\ is_quote c = false) ->
  Unquote vars u s = Returns (s, None).
Proof.
  intros H. destruct s as [|c t]; [reflexivity|].
  destruct (H c eq_refl) as (Hc & Hq).
  destruct (le_lt_dec (len (String c t)) 1) as [L|L].
  - unfold Unquote. apply Nat.ltb_ge in L. rewrite L. reflexivity.
  - rewrite (Unquote_long vars u _ c L eq_refl). now rewrite Hc, Hq.
Qed.

Lemma Unquote_plain_token_witness :
  Unquote {[ "abc"%string := "1"%string ]} sampleUser "abc:'x"
  = Returns ("abc:'x"%string, None).
Proof.
  apply Unquote_plain_token.
  intros c [= <-]. split; reflexivity.
Defined.

Lemma unquote_fails_iff (t : string) (c : ascii) :
  String.get 0 t = Some c -> is_quote c = true ->
  unquote t c =
    if openQuote t then (EmptyString, Some ErrUnterminatedString)
    else (slice t 1 (len t - 1), None).
Proof.
  intros G Q. unfold openQuote, unquote. rewrite G, Q. simpl.
  destruct ((len t <? 2) || negb (byte_is (String.get (len t - 1) t) c));
    reflexivity.
Qed.

Lemma openQuote_not_quote (t : string) (c : ascii) :
  String.get 0 t = Some c -> is_quote c = false -> openQuote t = false.
Proof. intros G Q. unfold openQuote. now rewrite G, Q. Qed.

(** X2. Whether [Unquote] fails is a matter of the token alone, not of the
    variables: it fails exactly on the tokens of two bytes or more that are
    an open quote or a colon before an open quote (so [:'] fails although
    ['] alone is handed back), always with [ErrUnterminatedString] and the
    empty string; on every other token it returns a string and no error. *)
Theorem Unquote_fails_iff_malformed (vars : gmap string string) (u : User)
    (s : string) :
  (malformed s = true ->
     Unquote vars u s = Returns (EmptyString, Some ErrUnterminatedString))
  /\ (malformed s = false -> exists r, Unquote vars u s = Returns (r, None))
  /\ malformed ":'" = true /\ malformed "'" = false.
Proof.
  split; [|split; [|split; reflexivity]].
  - unfold malformed. intros M. apply andb_true_iff in M. destruct M as (L & M).
    apply Nat.ltb_lt in L. destruct s as [|c t]; [discriminate|].
    rewrite (Unquote_long vars u _ c L eq_refl).
    destruct (Ascii.eqb c colon) eqn:Ec.
    + rewrite slice_tail. unfold openQuote in M.
      destruct (String.get 0 t) as [q|] eqn:G; [|discriminate].
      apply andb_true_iff in M. destruct M as (Q & M).
      unfold Getvar. rewrite G, Q.
      rewrite (unquote_fails_iff t q G Q). unfold openQuote. rewrite G, Q, M.
      reflexivity.
    + destruct (is_quote c) eqn:Q.
      * rewrite (unquote_fails_iff (String c t) c eq_refl Q), M. reflexivity.
      * rewrite (openQuote_not_quote (String c t) c eq_refl Q) in M. discriminate.
  - unfold malformed. intros M.
    destruct (le_lt_dec (len s) 1) as [L|L].
    { exists s. unfold Unquote.
      destruct (String.eqb_spec s EmptyString) as [->|_]; [reflexivity|].
      apply Nat.ltb_ge in L. now rewrite L. }
    destruct s as [|c t]; [simpl in L; lia|].
    rewrite (Unquote_long vars u _ c L eq_refl).
    apply Nat.ltb_lt in L. rewrite L in M. simpl in M.
    destruct (Ascii.eqb c colon) eqn:Ec.
    + rewrite slice_tail.
      destruct (String.get 0 t) as [q|] eqn:G.
      * unfold Getvar. rewrite G. cbv zeta.
        destruct (is_quote q) eqn:Q.
        -- rewrite (unquote_fails_iff t q G Q), M.
           destruct (vars !! slice t 1 (len t - 1)); eauto.
        -- destruct (vars !! t); eauto.
      * destruct t; [|discriminate G]. apply Nat.ltb_lt in L. simpl in L. lia.
    + destruct (is_quote c) eqn:Q; [|eauto].
      rewrite (unquote_fails_iff (String c t) c eq_refl Q), M. eauto.
Qed.

Lemma Unquote_fails_iff_malformed_witness :
  Unquote ∅ sampleUser ":'" = Returns (EmptyString, Some ErrUnterminatedString)
  /\ exists r, Unquote ∅ sampleUser "'" = Returns (r, None).
Proof.
  split.
  - exact (proj1 (Unquote_fails_iff_malformed ∅ sampleUser ":'") eq_refl).
  - exact (proj1 (proj2 (Unquote_fails_iff_malformed ∅ sampleUser "'")) eq_refl).
Defined.

(** ** Further properties of the paths *)

(** X3. [Getenv] yields the value of the first key whose variable is not
    empty, and the empty string exactly when every key's variable is. *)
Theorem Getenv_first_nonempty (w : World) (keys : list string) :
  (Getenv w keys = EmptyString <->
     forall k, In k keys -> os_Getenv w k = EmptyString)
  /\ (forall pre k post,
        keys = pre ++ k :: post ->
        (forall k', In k' pre -> os_Getenv w k' = EmptyString) ->
        os_Getenv w k <> EmptyString ->
        Getenv w keys = os_Getenv w k).
Proof.
  split.
  - induction keys as [|k keys IH]; simpl.
    + split; [intros _ k [] | reflexivity].
    + destruct (String.eqb_spec (os_Getenv w k) EmptyString) as [E|E]; simpl.
      * rewrite IH. split.
        -- intros H k' [<-|Hk']; auto.
        -- intros H k' Hk'. apply H. right. exact Hk'.
      * split; [intros H; contradiction|].
        intros H. exfalso. apply E, H. left. reflexivity.
  - intros pre k post -> Hpre Hk.
    induction pre as [|k0 pre IH]; simpl.
    + apply String.eqb_neq in Hk. now rewrite Hk.
    + rewrite (Hpre k0) by (left; reflexivity). simpl.
      apply IH. intros k' Hk'. apply Hpre. right. exact Hk'.
Qed.

Lemma Getenv_first_nonempty_witness :
  Getenv (sampleWorld "linux" StatNotExist []) ["A"; "B"]%string = EmptyString
  /\ Getenv
       {| GOOS := "linux";
          os_Getenv := fun k => if String.eqb k "B" then "2"%string
                                else if String.eqb k "C" then "3"%string
                                else EmptyString;
          os_Stat := fun _ => StatNotExist;
          os_Open := fun _ => OpenLines [];
          filepath_Join := fun a b => a +:+ "/" +:+ b;
          strings_ToLower := lowerASCII;
          text_CommandUpper := "USQL" |}
       ["A"; "B"; "C"]%string = "2"%string.
Proof.
  split.
  - apply (proj1 (Getenv_first_nonempty _ ["A"; "B"]%string)).
    intros k _. reflexivity.
  - refine (proj2 (Getenv_first_nonempty _ ["A"; "B"; "C"]%string)
              ["A"%string] "B"%string ["C"%string] eq_refl _ _).
    + intros k' [<-|[]]. reflexivity.
    + discriminate.
Defined.




(** ** Further properties of the credential lookup *)

Lemma PassFile_withOpen (w : World) (f : string -> openResult) (u : User) :
  PassFile (withOpen w f) u = PassFile w u.
Proof. reflexivity. Qed.

(** X5. The pass file is not read before it has passed every check: when
    the URL carries a password, or the file is missing, a directory, or
    (off Windows) open to group or other, the result is the same whatever
    opening the file would yield. *)
Theorem PassFileEntry_file_not_read (w : World) (u : User) (v : dburl.URL)
    (f : string -> openResult) :
  (exists ui, dburl.User v = Some ui /\ url.passwordSet ui = true)
  \/ os_Stat w (PassFile w u) = StatNotExist
  \/ (exists fi, os_Stat w (PassFile w u) = StatOk fi
        /\ (IsDir fi = true
            \/ (GOOS w <> "windows"%string /\ Z.land (Mode fi) 63 <> 0%Z))) ->
  PassFileEntry (withOpen w f) u v = PassFileEntry w u v
  /\ exists r, PassFileEntry w u v = Returns (None, r).
Proof.
  intros H. unfold PassFileEntry. rewrite PassFile_withOpen.
  change (os_Stat (withOpen w f)) with (os_Stat w).
  change (GOOS (withOpen w f)) with (GOOS w).
  destruct H as [(ui & Hu & Hp)|[H|(fi & St & H)]].
  - rewrite Hu, Hp. eauto.
  - rewrite H. destruct (match dburl.User v with Some ui => url.passwordSet ui | None => false end); eauto.
  - rewrite St.
    destruct (match dburl.User v with Some ui => url.passwordSet ui | None => false end); [eauto|].
    destruct H as [D|(G & M)].
    + rewrite D. eauto.
    + destruct (IsDir fi); [eauto|].
      apply String.eqb_neq in G. rewrite G.
      change 0x3f%Z with 63%Z. apply Z.eqb_neq in M. rewrite M. simpl. eauto.
Qed.

Lemma PassFileEntry_file_not_read_witness :
  PassFileEntry
    (withOpen (sampleWorld "linux" (regularFile 420) ["*:*:*:*:alice:secret"%string])
       (fun _ => OpenLines ["*:*:*:*:mallory:other"%string]))
    sampleUser (sampleURL None "pg:localhost:5432:db")
  = PassFileEntry
      (sampleWorld "linux" (regularFile 420) ["*:*:*:*:alice:secret"%string])
      sampleUser (sampleURL None "pg:localhost:5432:db").
Proof.
  apply (PassFileEntry_file_not_read
           (sampleWorld "linux" (regularFile 420) ["*:*:*:*:alice:secret"%string])
           sampleUser (sampleURL None "pg:localhost:5432:db")).
  right. right. exists {| IsDir := false; Mode := 420 |}.
  split; [reflexivity|]. right. split; discriminate.
Defined.

(** X6. When [os.Stat] fails with an error other than "does not exist",
    the [FileInfo] is nil and [PassFileEntry] panics on [fi.IsDir()],
    unless the URL carries a password. *)
Theorem PassFileEntry_stat_error_panics (w : World) (u : User) (v : dburl.URL)
    (err : error) :
  noPassword v ->
  os_Stat w (PassFile w u) = StatError err ->
  PassFileEntry w u v = Panics.
Proof.
  intros NP St. unfold PassFileEntry.
  now rewrite (noPassword_flag v NP), St.
Qed.

Lemma PassFileEntry_stat_error_panics_witness :
  PassFileEntry
    (sampleWorld "linux" (StatError (ErrOther "permission denied")) [])
    sampleUser (sampleURL None "pg:localhost:5432:db")
  = Panics.
Proof.
  apply (PassFileEntry_stat_error_panics _ _ _ (ErrOther "permission denied")).
  - intros ui H. discriminate H.
  - reflexivity.
Defined.

(** X7. On Windows the mode of the pass file plays no part: the lookup
    gives the same result for every mode of the same file. *)
Theorem PassFileEntry_windows_ignores_mode (w : World) (u : User)
    (v : dburl.URL) (fi : FileInfo) (mode : Z) :
  GOOS w = "windows"%string ->
  os_Stat w (PassFile w u) = StatOk fi ->
  PassFileEntry
    (withStat w (fun _ => StatOk {| IsDir := IsDir fi; Mode := mode |})) u v
  = PassFileEntry w u v.
Proof.
  intros G St. unfold PassFileEntry.
  change (PassFile (withStat w _) u) with (PassFile w u).
  change (os_Stat (withStat w ?f) ?p) with (f p).
  change (GOOS (withStat w _)) with (GOOS w).
  rewrite St, G. cbv beta. simpl IsDir. simpl Mode.
  change (String.eqb "windows" "windows") with true. simpl negb. simpl andb.
  reflexivity.
Qed.

Lemma PassFileEntry_windows_ignores_mode_witness :
  PassFileEntry
    (withStat (sampleWorld "windows" (regularFile 438) ["*:*:*:*:alice:secret"%string])
       (fun _ => StatOk {| IsDir := false; Mode := 384 |}))
    sampleUser (sampleURL None "pg:localhost:5432:db")
  = PassFileEntry
      (sampleWorld "windows" (regularFile 438) ["*:*:*:*:alice:secret"%string])
      sampleUser (sampleURL None "pg:localhost:5432:db").
Proof.
  exact (PassFileEntry_windows_ignores_mode
           (sampleWorld "windows" (regularFile 438) ["*:*:*:*:alice:secret"%string])
           sampleUser (sampleURL None "pg:localhost:5432:db")
           {| IsDir := false; Mode := 438 |} 384 eq_refl eq_refl).
Defined.

(** The verdicts of [matchPassEntry], for an entry of any width. *)
Lemma matchPassEntry_true (n entry : list string) (u0 p : string) :
  matchPassEntry n entry = Returns (u0, p, true) <->
  entryMatches n entry /\ entry !! 4 = Some u0 /\ entry !! 5 = Some p.
Proof.
  unfold matchPassEntry.
  pose proof (matchFrom_spec n entry (length n) 0 eq_refl) as S.
  destruct (matchFrom n entry 0 (length n)) as [[|]|].
  - assert (M : entryMatches n entry) by (intros i Hi; apply S; lia).
    destruct (entry !! 4) as [a|]; [destruct (entry !! 5) as [b|]|].
    + split; [intros [= <- <-]; auto | intros (_ & [= <-] & [= <-]); reflexivity].
    + split; [discriminate | intros (_ & _ & H); discriminate H].
    + split; [discriminate | intros (_ & H & _); discriminate H].
  - split; [discriminate|]. intros (M & _).
    destruct S as (j & Hj & _ & Hn & _). destruct Hn. apply M. lia.
  - split; [discriminate|]. intros (M & _).
    destruct S as (j & Hj & Hl & _).
    destruct (fieldMatches_lt n entry j); [apply M; lia | lia].
Qed.

Lemma matchPassEntry_false (n entry : list string) (u0 p : string) :
  matchPassEntry n entry = Returns (u0, p, false) -> ~ entryMatches n entry.
Proof.
  unfold matchPassEntry.
  pose proof (matchFrom_spec n entry (length n) 0 eq_refl) as S.
  destruct (matchFrom n entry 0 (length n)) as [[|]|].
  - destruct (entry !! 4); [destruct (entry !! 5)|]; discriminate.
  - intros _ M. destruct S as (j & Hj & _ & Hn & _). apply Hn, M. lia.
  - discriminate.
Qed.

(** What the scan hands back comes from the first matching entry. *)
Lemma findEntry_sound (n : list string) (username : string)
    (entries : list (list string)) (ui : option url.Userinfo) (err : option error) :
  findEntry n username entries = Returns (ui, err) ->
  err = None
  /\ match ui with
     | None => forall e, In e entries -> ~ entryMatches n e
     | Some ui =>
         url.passwordSet ui = true
         /\ exists pre entry post,
              entries = pre ++ entry :: post
              /\ (forall e, In e pre -> ~ entryMatches n e)
              /\ entryMatches n entry
              /\ entry !! 5 = Some (url.password ui)
              /\ exists u0,
                   entry !! 4 = Some u0
                   /\ url.username ui
                      = (if String.eqb u0 "*" then username else u0)
     end.
Proof.
  induction entries as [|e entries IH]; simpl.
  - intros [= <- <-]. split; [reflexivity|]. intros e [].
  - destruct (matchPassEntry n e) as [[[u0 p] [|]]|] eqn:M; [| |discriminate].
    + intros [= <- <-]. split; [reflexivity|]. split; [reflexivity|].
      apply matchPassEntry_true in M. destruct M as (M & H4 & H5).
      exists [], e, entries. split; [reflexivity|].
      split; [intros e' []|]. split; [exact M|]. split; [exact H5|].
      exists u0. split; [exact H4 | reflexivity].
    + intros H. apply matchPassEntry_false in M.
      destruct (IH H) as (-> & R). split; [reflexivity|].
      destruct ui as [ui|].
      * destruct R as (Hp & pre & entry & post & -> & Hpre & R).
        split; [exact Hp|]. exists (e :: pre), entry, post.
        split; [reflexivity|]. split; [|exact R].
        intros e' [<-|He']; auto.
      * intros e' [<-|He']; auto.
Qed.

(** X8. Whatever [PassFileEntry] returns with a user comes from the pass
    file: there is no error beside it, its password is set, and it is built
    from the first entry of the file that matches the identity: its
    password is that entry's sixth field, and its user name is that
    entry's fifth field [u0] unless [u0] is the wildcard, in which case it
    is the user name of the URL and nothing else. *)
Theorem PassFileEntry_result_from_file (w : World) (u : User) (v : dburl.URL)
    (ui : url.Userinfo) (err : option error) :
  PassFileEntry w u v = Returns (Some ui, err) ->
  err = None
  /\ url.passwordSet ui = true
  /\ exists pre entry post,
       readPassEntries w (PassFile w u) = (pre ++ entry :: post, None)
       /\ (forall e, In e pre -> ~ entryMatches (identity v) e)
       /\ entryMatches (identity v) entry
       /\ entry !! 5 = Some (url.password ui)
       /\ exists u0,
            entry !! 4 = Some u0
            /\ url.username ui
               = (if String.eqb u0 "*" then knownUsername v else u0)
            /\ (u0 = "*"%string -> url.username ui = knownUsername v)
            /\ (u0 <> "*"%string -> url.username ui = u0).
Proof.
  unfold PassFileEntry. fold (identity v). fold (knownUsername v).
  destruct (match dburl.User v with Some ui0 => url.passwordSet ui0 | None => false end);
    [discriminate|].
  destruct (os_Stat w (PassFile w u)) as [fi| |e]; [|discriminate..].
  destruct (IsDir fi); [discriminate|].
  destruct (negb (String.eqb (GOOS w) "windows") && negb (Z.land (Mode fi) 0x3f =? 0)%Z);
    [discriminate|].
  destruct (readPassEntries w (PassFile w u)) as [entries [e|]]; [discriminate|].
  destruct (length (identity v) <? 3); [discriminate|].
  intros H. apply findEntry_sound in H.
  destruct H as (-> & Hp & pre & entry & post & -> & Hpre & M & H5 & u0 & H4 & Hu).
  split; [reflexivity|]. split; [exact Hp|]. exists pre, entry, post.
  split; [reflexivity|]. split; [exact Hpre|]. split; [exact M|].
  split; [exact H5|]. exists u0. split; [exact H4|]. split; [exact Hu|].
  rewrite Hu. split.
  - intros ->. reflexivity.
  - intros Hne. apply String.eqb_neq in Hne. now rewrite Hne.
Qed.

Lemma PassFileEntry_result_from_file_witness :
  exists pre entry post u0,
    readPassEntries
      (sampleWorld "linux" (regularFile 384)
         ["mysql:*:*:*:root:pw"; "*:*:*:*:*:secret"]%string)
      "/home/u/.usqlpass"
    = (pre ++ entry :: post, None)
    /\ entry !! 5 = Some "secret"%string
    /\ entry !! 4 = Some u0
    /\ "bob"%string = (if String.eqb u0 "*" then "bob"%string else u0).
Proof.
  destruct (PassFileEntry_result_from_file
              (sampleWorld "linux" (regularFile 384)
                 ["mysql:*:*:*:root:pw"; "*:*:*:*:*:secret"]%string)
              sampleUser
              (sampleURL (Some {| url.username := "bob"; url.password := "";
                                 url.passwordSet := false |})
                 "pg:localhost:5432:db")
              (url.UserPassword "bob" "secret") None eq_refl)
    as (_ & _ & pre & entry & post & R & _ & _ & H5 & u0 & H4 & Hu & _).
  exists pre, entry, post, u0. auto.
Defined.

(** X9. When [PassFileEntry] has read the entries and returns nil with no
    error for an identity of three components or more, no entry of the file
    matches the identity. *)
Theorem PassFileEntry_nil_means_no_match (w : World) (u : User) (v : dburl.URL)
    (entries : list (list string)) :
  readsEntries w u v entries ->
  3 <= length (identity v) ->
  PassFileEntry w u v = Returns (None, None) ->
  forall e, In e entries -> ~ entryMatches (identity v) e.
Proof.
  intros RE L3. rewrite (PassFileEntry_scan w u v entries RE).
  assert (L : (length (identity v) <? 3) = false) by (apply Nat.ltb_ge; lia).
  rewrite L. intros H. apply findEntry_sound in H. apply H.
Qed.

Lemma PassFileEntry_nil_means_no_match_witness :
  PassFileEntry
    (sampleWorld "linux" (regularFile 384) ["mysql:*:*:*:root:pw"%string])
    sampleUser (sampleURL None "pg:localhost:5432:db")
  = Returns (None, None)
  /\ ~ entryMatches (identity (sampleURL None "pg:localhost:5432:db"))
         ["mysql"; "*"; "*"; "*"; "root"; "pw"]%string.
Proof.
  split; [reflexivity|].
  apply (PassFileEntry_nil_means_no_match
           (sampleWorld "linux" (regularFile 384) ["mysql:*:*:*:root:pw"%string])
           sampleUser (sampleURL None "pg:localhost:5432:db")
           [ ["mysql"; "*"; "*"; "*"; "root"; "pw"]%string ]).
  - split.
    + intros ui H. discriminate H.
    + exists {| IsDir := false; Mode := 384 |}.
      repeat split; try reflexivity. right. reflexivity.
  - vm_compute. lia.
  - reflexivity.
  - left. reflexivity.
Defined.

Lemma hasByte_joinFields (c sep : ascii) (l : list string) :
  hasByte c (joinFields sep l) = false ->
  forall f, In f l -> hasByte c f = false.
Proof.
  induction l as [|a l IH]; [intros _ f []|].
  destruct l as [|b l].
  - simpl. intros H f [<-|[]]. exact H.
  - change (joinFields sep (a :: b :: l))
      with (a +:+ String sep (joinFields sep (b :: l))).
    rewrite hasByte_app. intros H. apply orb_false_iff in H.
    destruct H as (Ha & H). simpl in H. apply orb_false_iff in H.
    destruct H as (_ & H).
    intros f [<-|Hf]; [exact Ha | apply IH; assumption].
Qed.

Lemma keptEntries_length (lines : list string) :
  length (keptEntries lines) <= length lines.
Proof.
  unfold keptEntries. rewrite length_map.
  induction lines as [|t lines IH]; simpl; [lia|].
  destruct (negb (isBlank t)); simpl; lia.
Qed.

(** X10. The entries that [readPassEntries] hands back are well formed:
    each has six fields, every field is nonempty and holds neither a colon
    nor a [#], and there are no more entries than lines in the file. *)
Theorem readPassEntries_well_formed (w : World) (path : string)
    (lines : list string) (entries : list (list string)) :
  os_Open w path = OpenLines lines ->
  readPassEntries w path = (entries, None) ->
  length entries <= length lines
  /\ forall e, In e entries ->
       length e = 6
       /\ forall f, In f e ->
            f <> EmptyString
            /\ hasByte colon f = false
            /\ hasByte "#"%char f = false.
Proof.
  intros Op. unfold readPassEntries. rewrite Op. intros H.
  pose proof (scanEntries_success lines 0 [] entries H) as G.
  pose proof (scanEntries_good lines [] 0 [] G) as E.
  rewrite app_nil_r in E. rewrite E in H. simpl in H. injection H as <-.
  split; [apply keptEntries_length|].
  intros e He. unfold keptEntries in He.
  apply in_map_iff in He. destruct He as (t & <- & Ht).
  apply filter_In in Ht. destruct Ht as (Ht & Hb).
  destruct (G t Ht) as [B|(L6 & NE)].
  { unfold isBlank in Hb. rewrite B in Hb. discriminate Hb. }
  split; [exact L6|]. intros f Hf. split; [now apply NE|].
  destruct (Split_spec (cleaned t) colon) as (J & F).
  split; [now apply F|].
  apply (hasByte_joinFields "#"%char colon (fields t)); [|exact Hf].
  unfold fields. rewrite J. unfold cleaned.
  destruct (stripComment_spec t) as (_ & Hh).
  destruct (TrimSpace_spec (stripComment t)) as ((front & back & _ & _ & Es) & _).
  rewrite Es, !hasByte_app in Hh.
  apply orb_false_iff in Hh. destruct Hh as (_ & Hh).
  apply orb_false_iff in Hh. tauto.
Qed.

Lemma readPassEntries_well_formed_witness :
  length [ ["pg"; "localhost"; "5432"; "db"; "alice"; "secret"]%string ] <= 3.
Proof.
  apply (proj1 (readPassEntries_well_formed
                  (sampleWorld "linux" (regularFile 384)
                     ["# secrets"; ""; " pg:localhost:5432:db:alice:secret # main"]%string)
                  "/home/u/.usqlpass"
                  ["# secrets"; ""; " pg:localhost:5432:db:alice:secret # main"]%string
                  [ ["pg"; "localhost"; "5432"; "db"; "alice"; "secret"]%string ]
                  eq_refl eq_refl)).
Defined.

(** The first line that is not accepted ends the read with its error. *)
Lemma scanEntries_first_bad (lines : list string) :
  forall i entries es err,
  scanEntries lines i entries = (es, Some err) ->
  exists pre t post,
    lines = pre ++ t :: post
    /\ (forall t', In t' pre -> goodLine t')
    /\ ~ goodLine t
    /\ ((length (fields t) <> 6 /\ err = BadPassFileLine (i + S (length pre)))
        \/ (length (fields t) = 6
            /\ exists j, fields t !! j = Some EmptyString
                         /\ err = BadPassFileFieldEmpty (i + S (length pre)) j)).
Proof.
  induction lines as [|t lines IH]; intros i entries es err H; [discriminate H|].
  destruct (String.eqb_spec (cleaned t) EmptyString) as [B|B].
  - assert (G : goodLine t) by (left; exact B).
    rewrite (goodLine_step t lines i entries G) in H.
    destruct (IH _ _ _ _ H) as (pre & t' & post & -> & Hpre & Hbad & Herr).
    exists (t :: pre), t', post. split; [reflexivity|].
    split; [intros x [<-|Hx]; auto|]. split; [exact Hbad|].
    simpl length. replace (i + S (S (length pre))) with (S i + S (length pre)) by lia.
    exact Herr.
  - destruct (Nat.eq_dec (length (fields t)) 6) as [L6|L6].
    + destruct (firstEmpty (fields t) 0) as [j|] eqn:F.
      * exists [], t, lines. split; [reflexivity|]. split; [intros x []|].
        simpl in H. fold (cleaned t) in H. fold (fields t) in H.
        apply String.eqb_neq in B. rewrite B, L6, F in H. simpl in H.
        injection H as _ <-.
        apply firstEmpty_Some in F. destruct F as (k & -> & Hk & _).
        split.
        { intros [G|(_ & G)]; [apply String.eqb_neq in B; contradiction|].
          apply (G EmptyString); [|reflexivity].
          apply list_elem_of_In. eapply list_elem_of_lookup_2. exact Hk. }
        right. split; [exact L6|]. exists k. split; [exact Hk|].
        simpl. rewrite Nat.add_1_r. reflexivity.
      * assert (G : goodLine t).
        { right. split; [exact L6|]. now apply (firstEmpty_None _ 0). }
        rewrite (goodLine_step t lines i entries G) in H.
        destruct (IH _ _ _ _ H) as (pre & t' & post & -> & Hpre & Hbad & Herr).
        exists (t :: pre), t', post. split; [reflexivity|].
        split; [intros x [<-|Hx]; auto|]. split; [exact Hbad|].
        simpl length. replace (i + S (S (length pre))) with (S i + S (length pre)) by lia.
        exact Herr.
    + exists [], t, lines. split; [reflexivity|]. split; [intros x []|].
      split; [intros [G|(G & _)]; contradiction|].
      left. split; [exact L6|].
      simpl in H. fold (cleaned t) in H. fold (fields t) in H.
      apply String.eqb_neq in B. rewrite B in H.
      apply Nat.eqb_neq in L6. rewrite L6 in H. simpl in H.
      injection H as _ <-. simpl. rewrite Nat.add_1_r. reflexivity.
Qed.

(** X11. A read that fails names the first line that is not accepted:
    every line before it is blank or holds six nonempty fields, the line
    itself is neither, and the error carries its number, counted from one
    over all lines, with the kind of its defect: a field count other than
    six, or the index of an empty field among six.  No entry is handed
    back. *)
Theorem readPassEntries_failure_names_line (w : World) (path : string)
    (lines : list string) (es : list (list string)) (err : error) :
  os_Open w path = OpenLines lines ->
  readPassEntries w path = (es, Some err) ->
  es = []
  /\ exists pre t post,
       lines = pre ++ t :: post
       /\ (forall t', In t' pre -> goodLine t')
       /\ ~ goodLine t
       /\ ((length (fields t) <> 6 /\ err = BadPassFileLine (S (length pre)))
           \/ (length (fields t) = 6
               /\ exists j, fields t !! j = Some EmptyString
                            /\ err = BadPassFileFieldEmpty (S (length pre)) j)).
Proof.
  intros Op. unfold readPassEntries. rewrite Op. intros H.
  split; [now apply scanEntries_error in H|].
  exact (scanEntries_first_bad lines 0 [] es err H).
Qed.

Lemma readPassEntries_failure_names_line_witness :
  ([] : list (list string)) = []
  /\ exists pre t post,
       ["# secrets"; "pg:localhost:5432:db:alice:secret"; "a:b:c"; "x"]%string
       = pre ++ t :: post
       /\ BadPassFileLine 3 = BadPassFileLine (S (length pre)).
Proof.
  destruct (readPassEntries_failure_names_line
              (sampleWorld "linux" (regularFile 384)
                 ["# secrets"; "pg:localhost:5432:db:alice:secret"; "a:b:c"; "x"]%string)
              "/home/u/.usqlpass"
              ["# secrets"; "pg:localhost:5432:db:alice:secret"; "a:b:c"; "x"]%string
              [] (BadPassFileLine 3) eq_refl eq_refl)
    as (E & pre & t & post & Hl & _ & _ & [(_ & He)|(_ & j & _ & He)]).
  - split; [exact E|]. exists pre, t, post. split; [exact Hl | exact He].
  - discriminate He.
Defined.

(** ** Further properties of the matching *)

Lemma entryMatches_take (n entry : list string) (k : nat) :
  entryMatches n entry -> entryMatches (take k n) entry.
Proof.
  intros M i Hi. rewrite length_take in Hi.
  destruct (M i) as (e & c & He & Hc & H); [lia|].
  exists e, c. split; [exact He|]. split; [|exact H].
  rewrite lookup_take_lt by lia. exact Hc.
Qed.

(** X12. Matching looks at the identity component by component: an entry
    that matches an identity matches each of its leading parts, with the
    same user name and password. *)
Theorem matchPassEntry_prefix (n entry : list string) (u0 p : string) (k : nat) :
  matchPassEntry n entry = Returns (u0, p, true) ->
  matchPassEntry (take k n) entry = Returns (u0, p, true).
Proof.
  intros H. apply matchPassEntry_true in H. destruct H as (M & H4 & H5).
  apply matchPassEntry_true. split; [now apply entryMatches_take | auto].
Qed.

Lemma matchPassEntry_prefix_witness :
  matchPassEntry (take 3 ["pg"; "localhost"; "5432"; "db"]%string)
    ["pg"; "*"; "5432"; "db"; "alice"; "secret"]%string
  = Returns ("alice"%string, "secret"%string, true).
Proof.
  exact (matchPassEntry_prefix ["pg"; "localhost"; "5432"; "db"]%string
           ["pg"; "*"; "5432"; "db"; "alice"; "secret"]%string
           "alice" "secret" 3 eq_refl).
Defined.

(** X13. An entry whose fields are the wildcard at every index of the
    identity matches it, whatever the identity holds, and yields its fifth
    and sixth fields: [*:*:*:*:alice:secret] serves every identity of up
    to four components. *)
Theorem matchPassEntry_wildcards (n entry : list string) (u0 p : string) :
  (forall i, i < length n -> entry !! i = Some "*"%string) ->
  entry !! 4 = Some u0 -> entry !! 5 = Some p ->
  matchPassEntry n entry = Returns (u0, p, true).
Proof.
  intros W H4 H5. apply matchPassEntry_true. split; [|auto].
  intros i Hi. destruct (lookup_lt_is_Some_2 n i Hi) as [c Hc].
  exists "*"%string, c. auto.
Qed.

Lemma matchPassEntry_wildcards_witness :
  matchPassEntry ["pg"; "localhost"; "5432"; "db"]%string
    ["*"; "*"; "*"; "*"; "alice"; "secret"]%string
  = Returns ("alice"%string, "secret"%string, true).
Proof.
  apply matchPassEntry_wildcards; [|reflexivity..].
  intros i Hi. simpl in Hi.
  assert (i = 0 \/ i = 1 \/ i = 2 \/ i = 3) as [->|[->|[->| ->]]] by lia;
    reflexivity.
Defined.

(** ** Further properties of the registry *)

Lemma init_registerAll (CommandName : string) :
  init CommandName = registerAll (cmds CommandName).
Proof. reflexivity. Qed.

Lemma assign_all (mc : Metacmd.t) (ks : list string) :
  forall r,
  assigned (foldl (assign mc) r ks) = assigned r ++ ks
  /\ sectMap (foldl (assign mc) r ks) = sectMap r
  /\ forall k,
       (In k ks -> cmdMap (foldl (assign mc) r ks) !! k = Some mc)
       /\ (~ In k ks -> cmdMap (foldl (assign mc) r ks) !! k = cmdMap r !! k).
Proof.
  induction ks as [|a ks IH]; intros r; simpl.
  - split; [now rewrite app_nil_r|]. split; [reflexivity|].
    intros k. split; [intros [] | reflexivity].
  - destruct (IH (assign mc r a)) as (A & S & L).
    split; [rewrite A; simpl; now rewrite <- app_assoc|].
    split; [rewrite S; reflexivity|].
    intros k. destruct (L k) as (Lin & Lout).
    destruct (in_dec string_dec k ks) as [Hin|Hin].
    + split; [intros _; now apply Lin | intros H; exfalso; apply H; auto].
    + rewrite (Lout Hin). simpl. split.
      * intros [->|H]; [apply lookup_insert_eq | contradiction].
      * intros H. apply lookup_insert_ne. intros ->. apply H. auto.
Qed.

(** One round of the loop: a skipped element changes nothing, a
    registered one takes over its names and joins its section. *)
Lemma register_effect (r : Registry) (mc : Metacmd.t) (c : Cmd) :
  (Metacmd.eqb mc Metacmd.None = true -> register r mc c = r)
  /\ (Metacmd.eqb mc Metacmd.None = false ->
      assigned (register r mc c) = assigned r ++ names c
      /\ (forall s, sectMap (register r mc c) s =
            sectMap r s ++ (if HelpSection_eqb s (cmd_Section c) then [mc] else []))
      /\ forall k,
           (In k (names c) -> cmdMap (register r mc c) !! k = Some mc)
           /\ (~ In k (names c) ->
               cmdMap (register r mc c) !! k = cmdMap r !! k)).
Proof.
  unfold register. split; intros E; rewrite E; [reflexivity|].
  change (foldl (assign mc) (assign mc r (cmd_Name c)) (map fst (cmd_Aliases c)))
    with (foldl (assign mc) r (names c)).
  destruct (assign_all mc (names c) r) as (A & S & L).
  cbn [assigned sectMap cmdMap]. split; [exact A|]. split; [|exact L].
  intros s. rewrite S.
  destruct (HelpSection_eqb s (cmd_Section c)); [reflexivity | now rewrite app_nil_r].
Qed.

Lemma registerFrom_app (r : Registry) (a b : list (Metacmd.t * Cmd)) :
  registerFrom r (a ++ b) = registerFrom (registerFrom r a) b.
Proof. unfold registerFrom. apply foldl_app. Qed.

(** Every key of the index was put there for a registered element that
    names it. *)
Lemma registerFrom_sound (table : list (Metacmd.t * Cmd)) :
  forall r k mc,
  cmdMap (registerFrom r table) !! k = Some mc ->
  cmdMap r !! k = Some mc
  \/ (Metacmd.eqb mc Metacmd.None = false
      /\ exists c, In (mc, c) table /\ In k (names c)).
Proof.
  induction table as [|[mc0 c0] table IH]; intros r k mc H; [left; exact H|].
  change (registerFrom r ((mc0, c0) :: table))
    with (registerFrom (register r mc0 c0) table) in H.
  destruct (IH _ _ _ H) as [H'|(E & c & Hc & Hk)].
  - destruct (register_effect r mc0 c0) as (Skip & Reg).
    destruct (Metacmd.eqb mc0 Metacmd.None) eqn:E.
    + rewrite (Skip eq_refl) in H'. left. exact H'.
    + destruct (Reg eq_refl) as (_ & _ & L). destruct (L k) as (Lin & Lout).
      destruct (in_dec string_dec k (names c0)) as [Hin|Hin].
      * rewrite (Lin Hin) in H'. injection H' as <-. right. split; [exact E|].
        exists c0. split; [left; reflexivity | exact Hin].
      * rewrite (Lout Hin) in H'. left. exact H'.
  - right. split; [exact E|]. exists c. split; [right; exact Hc | exact Hk].
Qed.

(** The keys of the index are the keys assigned. *)
Lemma registerFrom_keys (table : list (Metacmd.t * Cmd)) :
  forall r,
  (forall k, In k (assigned r) <-> is_Some (cmdMap r !! k)) ->
  forall k, In k (assigned (registerFrom r table))
            <-> is_Some (cmdMap (registerFrom r table) !! k).
Proof.
  induction table as [|[mc0 c0] table IH]; intros r Hr; [exact Hr|].
  change (registerFrom r ((mc0, c0) :: table))
    with (registerFrom (register r mc0 c0) table).
  apply IH. intros k.
  destruct (register_effect r mc0 c0) as (Skip & Reg).
  destruct (Metacmd.eqb mc0 Metacmd.None) eqn:E.
  - rewrite (Skip eq_refl). apply Hr.
  - destruct (Reg eq_refl) as (A & _ & L). destruct (L k) as (Lin & Lout).
    rewrite A, in_app_iff, Hr.
    destruct (in_dec string_dec k (names c0)) as [Hin|Hin].
    + rewrite (Lin Hin). split; [eauto | auto].
    + rewrite (Lout Hin). tauto.
Qed.

(** Elements that do not name [k] leave its entry alone. *)
Lemma registerFrom_other (table : list (Metacmd.t * Cmd)) (k : string) :
  (forall mc c, In (mc, c) table -> Metacmd.eqb mc Metacmd.None = false ->
     ~ In k (names c)) ->
  forall r, cmdMap (registerFrom r table) !! k = cmdMap r !! k.
Proof.
  induction table as [|[mc0 c0] table IH]; intros H r; [reflexivity|].
  change (registerFrom r ((mc0, c0) :: table))
    with (registerFrom (register r mc0 c0) table).
  rewrite IH by (intros mc c Hc; apply H; right; exact Hc).
  destruct (register_effect r mc0 c0) as (Skip & Reg).
  destruct (Metacmd.eqb mc0 Metacmd.None) eqn:E.
  - now rewrite (Skip eq_refl).
  - destruct (Reg eq_refl) as (_ & _ & L). apply (L k).
    apply (H mc0 c0); [left; reflexivity | exact E].
Qed.

Lemma registerFrom_sections (table : list (Metacmd.t * Cmd)) (s : HelpSection) :
  forall r,
  sectMap (registerFrom r table) s =
    sectMap r s ++ map fst (List.filter (inSection s) table).
Proof.
  induction table as [|[mc0 c0] table IH]; intros r.
  - simpl. now rewrite app_nil_r.
  - change (registerFrom r ((mc0, c0) :: table))
      with (registerFrom (register r mc0 c0) table).
    rewrite IH. destruct (register_effect r mc0 c0) as (Skip & Reg).
    unfold inSection at 2. simpl List.filter. cbn [fst snd].
    destruct (Metacmd.eqb mc0 Metacmd.None) eqn:E.
    + rewrite (Skip eq_refl). reflexivity.
    + destruct (Reg eq_refl) as (_ & S & _). rewrite S. simpl negb. simpl andb.
      destruct (HelpSection_eqb s (cmd_Section c0)).
      * rewrite <- app_assoc. reflexivity.
      * rewrite app_nil_r. reflexivity.
Qed.

Lemma emptyRegistry_keys (k : string) :
  In k (assigned emptyRegistry) <-> is_Some (cmdMap emptyRegistry !! k).
Proof.
  simpl. rewrite lookup_empty. split; [intros [] | intros [x H]; discriminate H].
Qed.

(** X14. The index resolves nothing but declared names: for every table,
    a name that the index built by the loop of [init] maps to a command is
    the name or an alias of that command's element of the table, that
    command is not [None], and the name is among the keys assigned.  [init]
    is this loop over [cmds]. *)
Theorem registry_resolves_declared_names (table : list (Metacmd.t * Cmd))
    (k : string) (mc : Metacmd.t) :
  cmdMap (registerAll table) !! k = Some mc ->
  Metacmd.eqb mc Metacmd.None = false
  /\ In k (assigned (registerAll table))
  /\ (exists c, In (mc, c) table /\ In k (names c))
  /\ forall CommandName, init CommandName = registerAll (cmds CommandName).
Proof.
  intros H. unfold registerAll in *.
  assert (K : In k (assigned (registerFrom emptyRegistry table))).
  { apply (registerFrom_keys table emptyRegistry emptyRegistry_keys). eauto. }
  destruct (registerFrom_sound table emptyRegistry k mc H) as [H0|(E & R)].
  - simpl in H0. rewrite lookup_empty in H0. discriminate H0.
  - split; [exact E|]. split; [exact K|]. split; [exact R | reflexivity].
Qed.

Lemma registry_resolves_declared_names_witness :
  exists c, In (Metacmd.Print, c) (cmds "usql") /\ In "raw"%string (names c).
Proof.
  apply (registry_resolves_declared_names (cmds "usql") "raw" Metacmd.Print).
  vm_compute. reflexivity.
Defined.

(** X15. When two elements of a table name the same key, the later one
    has it: a key is mapped to the last registered element that names it. *)
Theorem registry_last_registration_wins (pre post : list (Metacmd.t * Cmd))
    (mc : Metacmd.t) (c : Cmd) (k : string) :
  Metacmd.eqb mc Metacmd.None = false ->
  In k (names c) ->
  (forall mc' c', In (mc', c') post -> Metacmd.eqb mc' Metacmd.None = false ->
     ~ In k (names c')) ->
  cmdMap (registerAll (pre ++ (mc, c) :: post)) !! k = Some mc.
Proof.
  intros E Hk Hpost. unfold registerAll.
  rewrite registerFrom_app.
  change (registerFrom ?r ((mc, c) :: post))
    with (registerFrom (register r mc c) post).
  rewrite (registerFrom_other post k Hpost).
  destruct (register_effect (registerFrom emptyRegistry pre) mc c) as (_ & Reg).
  destruct (Reg E) as (_ & _ & L). now apply (L k).
Qed.

Lemma registry_last_registration_wins_witness :
  cmdMap (registerAll
            ([ (Metacmd.Quit,
                {| cmd_Section := SectionGeneral; cmd_Name := "q"; cmd_Desc := "";
                   cmd_Min := 0; cmd_Aliases := [ ("x", "") ]%string |}) ]
             ++ (Metacmd.SetFormatVar,
                 {| cmd_Section := SectionFormatting; cmd_Name := "pset";
                    cmd_Desc := ""; cmd_Min := 0;
                    cmd_Aliases := [ ("x", "") ]%string |}) :: []))
    !! "x"%string
  = Some Metacmd.SetFormatVar.
Proof.
  apply registry_last_registration_wins.
  - reflexivity.
  - right. left. reflexivity.
  - intros mc' c' [].
Defined.

(** X16. The section index groups the registered commands by section and
    keeps the order of the table within each section; the element at
    [None] is in no section. *)
Theorem registry_sections_in_table_order (table : list (Metacmd.t * Cmd))
    (s : HelpSection) :
  sectMap (registerAll table) s = map fst (List.filter (inSection s) table)
  /\ ~ In Metacmd.None (sectMap (registerAll table) s)
  /\ forall CommandName,
       sectMap (init CommandName) s
       = map fst (List.filter (inSection s) (cmds CommandName)).
Proof.
  assert (G : forall t, sectMap (registerAll t) s = map fst (List.filter (inSection s) t)).
  { intros t. unfold registerAll. now rewrite registerFrom_sections. }
  split; [apply G|]. split; [|intros cn; apply (G (cmds cn))].
  rewrite G. intros H. apply in_map_iff in H.
  destruct H as ([mc c] & Hmc & Hin). simpl in Hmc. subst mc.
  apply filter_In in Hin. destruct Hin as (_ & Hs).
  unfold inSection in Hs. simpl in Hs. discriminate Hs.
Qed.

Lemma cmds_Transact (CommandName : string) (c : Cmd) :
  In (Metacmd.Transact, c) (cmds CommandName) ->
  names c = ["begin"; "commit"; "rollback"]%string.
Proof.
  unfold cmds. simpl. intros H.
  repeat (destruct H as [H|H]; [try discriminate H; injection H as <-; reflexivity|]).
  destruct H.
Qed.

Lemma cmds_SetFormatVar (CommandName : string) (c : Cmd) :
  In (Metacmd.SetFormatVar, c) (cmds CommandName) ->
  names c = ["pset"; "a"; "C"; "f"; "H"; "T"; "t"; "x"]%string.
Proof.
  unfold cmds. simpl. intros H.
  repeat (destruct H as [H|H]; [try discriminate H; injection H as <-; reflexivity|]).
  destruct H.
Qed.

(** X17. Every name that the index of [init] maps to [Transact] is one of
    [begin], [commit] and [rollback], so the handler of [Transact], which
    panics on any other name, does not panic: reached as [begin] it calls
    [Begin], as [commit] it calls [Commit], as [rollback] it calls
    [Rollback], and it returns the error of that call. *)
Theorem Transact_reached_by_its_names (CommandName k : string)
    (run : txCall -> option error) (params : list string) :
  cmdMap (init CommandName) !! k = Some Metacmd.Transact ->
  (k = "begin"%string
   /\ Transact_Process run {| p_Name := k; p_Params := params |}
      = Returns (CallBegin, run CallBegin))
  \/ (k = "commit"%string
      /\ Transact_Process run {| p_Name := k; p_Params := params |}
         = Returns (CallCommit, run CallCommit))
  \/ (k = "rollback"%string
      /\ Transact_Process run {| p_Name := k; p_Params := params |}
         = Returns (CallRollback, run CallRollback)).
Proof.
  intros H. rewrite init_registerAll in H.
  destruct (registerFrom_sound _ emptyRegistry k _ H) as [H0|(_ & c & Hc & Hk)].
  { simpl in H0. rewrite lookup_empty in H0. discriminate H0. }
  rewrite (cmds_Transact CommandName c Hc) in Hk.
  destruct Hk as [<-|[<-|[<-|[]]]].
  - left. split; reflexivity.
  - right. left. split; reflexivity.
  - right. right. split; reflexivity.
Qed.

Lemma Transact_reached_by_its_names_witness :
  ("commit"%string = "begin"%string
   /\ Transact_Process (fun _ => None) {| p_Name := "commit"; p_Params := [] |}
      = Returns (CallBegin, None))
  \/ ("commit"%string = "commit"%string
      /\ Transact_Process (fun _ => None) {| p_Name := "commit"; p_Params := [] |}
         = Returns (CallCommit, None))
  \/ ("commit"%string = "rollback"%string
      /\ Transact_Process (fun _ => None) {| p_Name := "commit"; p_Params := [] |}
         = Returns (CallRollback, None)).
Proof.
  apply (Transact_reached_by_its_names "usql" "commit" (fun _ => None) []).
  vm_compute. reflexivity.
Defined.

(** X18. Every name that the index of [init] maps to [SetFormatVar] has
    its case in the handler: it is [pset], which reads the field from the
    arguments, or an alias with its row in [aliasWiring]: whatever the
    collaborators, the arguments and their number are, the handler aims
    that alias at the field and the extra value of its row and leaves the
    arguments as they are.  The handler's fall-through to the empty field
    is not reached through the index. *)
Theorem SetFormatVar_reached_by_its_names (CommandName k : string) :
  cmdMap (init CommandName) !! k = Some Metacmd.SetFormatVar ->
  k = "pset"%string
  \/ exists field extra,
       In (k, (field, extra)) aliasWiring
       /\ In field aliasFields
       /\ forall (PV : Type) (d : Deps PV) (params : list string) (l : nat),
            target d {| p_Name := k; p_Params := params |} l
            = (field, extra, {| p_Name := k; p_Params := params |}, l).
Proof.
  intros H. rewrite init_registerAll in H.
  destruct (registerFrom_sound _ emptyRegistry k _ H) as [H0|(_ & c & Hc & Hk)].
  { simpl in H0. rewrite lookup_empty in H0. discriminate H0. }
  rewrite (cmds_SetFormatVar CommandName c Hc) in Hk.
  destruct Hk as [<-|Hk]; [left; reflexivity|]. right.
  unfold aliasWiring, aliasFields.
  repeat (destruct Hk as [<-|Hk];
    [eexists _, _; split; [|split; [|intros PV d params l; reflexivity]];
       simpl; tauto|]).
  destruct Hk.
Qed.

Lemma SetFormatVar_reached_by_its_names_witness :
  "H"%string = "pset"%string
  \/ exists field extra,
       In ("H"%string, (field, extra)) aliasWiring
       /\ In field aliasFields
       /\ forall (PV : Type) (d : Deps PV) (params : list string) (l : nat),
            target d {| p_Name := "H"; p_Params := params |} l
            = (field, extra, {| p_Name := "H"; p_Params := params |}, l).
Proof.
  apply (SetFormatVar_reached_by_its_names "usql" "H").
  vm_compute. reflexivity.
Defined.

(** ** Further properties of the handlers *)

(** The sorted names of a Go map: in ascending order, each key once. *)
Lemma sorted_keys_spec (vars : gmap string string) :
  let ks := merge_sort String.le (map fst (map_to_list vars)) in
  StronglySorted String.le ks
  /\ List.NoDup ks
  /\ forall k, In k ks <-> is_Some (vars !! k).
Proof.
  intros ks.
  assert (P : ks ≡ₚ map fst (map_to_list vars)) by apply merge_sort_Permutation.
  split; [apply StronglySorted_merge_sort; apply _|]. split.
  - apply NoDup_ListNoDup. rewrite P. apply NoDup_fst_map_to_list.
  - intros k. rewrite <- list_elem_of_In, P. split.
    + intros H. apply list_elem_of_fmap in H. destruct H as ([k' v] & -> & H).
      apply elem_of_map_to_list in H. eauto.
    + intros [v H]. apply list_elem_of_fmap. exists (k, v).
      split; [reflexivity|]. now apply elem_of_map_to_list.
Qed.

Lemma len_spaces (k : nat) : len (spaces k) = k.
Proof. induction k as [|k IH]; simpl; [reflexivity | now rewrite IH]. Qed.

Lemma nameWidth_bound (ks : list string) (k : string) :
  In k ks -> len k <= nameWidth ks.
Proof.
  induction ks as [|a ks IH]; [intros []|].
  simpl. intros [<-|H]; [lia|]. specialize (IH H). lia.
Qed.

Section HandlerFacts.
Context {PV : Type} (d : Deps PV).


(** X20. [\pset] with no argument lists the options and changes nothing:
    one line per option, the names in ascending order, each once, and the
    name column of every line padded to the length of the longest name. *)
Theorem SetFormatVar_listing (st : PV) :
  SetFormatVar_Process d st {| p_Name := "pset"; p_Params := [] |}
  = (st, listOptions d st, None)
  /\ exists ks,
       listOptions d st = map (optionLine d (Pall d st) (nameWidth ks)) ks
       /\ StronglySorted String.le ks
       /\ List.NoDup ks
       /\ (forall k, In k ks <-> is_Some (Pall d st !! k))
       /\ forall k, In k ks ->
            len (k +:+ spaces (nameWidth ks - len k)) = nameWidth ks.
Proof.
  split; [reflexivity|].
  exists (merge_sort String.le (map fst (map_to_list (Pall d st)))).
  destruct (sorted_keys_spec (Pall d st)) as (S & N & M).
  split; [reflexivity|]. split; [exact S|]. split; [exact N|]. split; [exact M|].
  intros k Hk. rewrite len_app, len_spaces.
  pose proof (nameWidth_bound _ k Hk). lia.
Qed.
End HandlerFacts.

(** X21. [\set] with no argument lists the variables and changes nothing:
    one line [name = 'value'] per variable, the names in ascending order,
    each once. *)
Theorem SetVar_listing (ST : Type) (d : VarDeps ST) (st : ST) (name : string) :
  SetVar_Process d st {| p_Name := name; p_Params := [] |}
  = (st, listVars (sv_All d st), None)
  /\ exists ks,
       listVars (sv_All d st) = map (varLine (sv_All d st)) ks
       /\ StronglySorted String.le ks
       /\ List.NoDup ks
       /\ (forall k, In k ks <-> is_Some (sv_All d st !! k))
       /\ forall k v, sv_All d st !! k = Some v ->
            In (Fprintln [k; "="%string; "'" +:+ v +:+ "'"])
               (listVars (sv_All d st)).
Proof.
  split; [reflexivity|].
  exists (merge_sort String.le (map fst (map_to_list (sv_All d st)))).
  destruct (sorted_keys_spec (sv_All d st)) as (S & N & M).
  split; [reflexivity|]. split; [exact S|]. split; [exact N|]. split; [exact M|].
  intros k v Hv. unfold listVars. apply in_map_iff. exists k. split.
  - unfold varLine, at_key. now rewrite Hv.
  - apply M. eauto.
Qed.

